(** * The palette section decoder [readcolordata] of zplload.c

    A shallow embedding of the decoder and the properties of its
    version branching, its commit discipline and its stream reads. *)

From Stdlib Require Import ZArith Strings.Byte.
From stdpp Require Import base list.

Open Scope Z_scope.

(** ** Data model *)

Abbreviation byte := Byte.byte.

(** Little-endian words, as [pack_igetw] and [pack_igetl] assemble them. *)
Definition byteZ (b : byte) : Z := Z.of_N (Byte.to_N b).

Definition word16 (b0 b1 : byte) : Z := byteZ b0 + 256 * byteZ b1.

Definition word32 (b0 b1 b2 b3 : byte) : Z :=
  byteZ b0 + 256 * byteZ b1 + 65536 * byteZ b2 + 16777216 * byteZ b3.

(** The table sizes and offsets of the format.  They are declared in a
    header that is not part of this file, so the decoder is stated over any
    value of them.  They count records, so they are naturals; a difference
    that is negative in C bounds a loop that does not run, and so does the
    truncated difference here. *)
Class Layout := {
  oldpdTOTAL : nat;
  newpdTOTAL : nat;
  newerpdTOTAL : nat;
  oldpoSPRITE : nat;
  newpoSPRITE : nat;
  newerpoSPRITE : nat;
  PALNAMESIZE : nat;
  OLDMAXLEVELS : nat;
  MAXLEVELS : nat
}.

(** One colour cycle: [temp_misc.cycles[i][j]]. *)
Record palcycle := { first : byte; count : byte; speed : byte }.

Definition set_first (v : byte) (c : palcycle) : palcycle :=
  {| first := v; count := count c; speed := speed c |}.
Definition set_count (v : byte) (c : palcycle) : palcycle :=
  {| first := first c; count := v; speed := speed c |}.
Definition set_speed (v : byte) (c : palcycle) : palcycle :=
  {| first := first c; count := count c; speed := v |}.

Definition no_cycle : palcycle := {| first := x00; count := x00; speed := x00 |}.

(** Modelled from the spec: [miscQdata], declared outside this file, is the
    aggregate containing the cycle table and other fields.  The decoder
    names only [cycles[256][3]].  The other fields are kept as the memory
    they occupy: [behind] is the part of the aggregate laid out after the
    table, seen through the table's cell type (three bytes a cell), which is
    where [cycles[i][j]] lies for [i >= 256]; [others] stands for the fields
    in front of the table, whose type is left open. *)
Record miscQdata (Others : Type) := {
  cycles : list (list palcycle);
  behind : list palcycle;
  others : Others
}.
Arguments cycles {Others} _.
Arguments behind {Others} _.
Arguments others {Others} _.

(** The status codes the decoder returns: [0], written [qe_OK], and
    [qe_invalid], an enumerator declared outside this file. *)
Inductive status := qe_OK | qe_invalid.

(** The calls the decoder makes to its collaborators, in the order made. *)
Inductive event :=
| Call_igetw
| Call_igetl
| Call_fread (n : nat)
| Call_getc
| Call_init_palnames.

(** The caller-owned destinations: the globals [colordata] and [palnames]
    and the aggregate behind the pointer [Misc]. *)
Record tables (Others : Type) := {
  colordata : list byte;
  palnames : list (list byte);
  Misc : miscQdata Others
}.
Arguments colordata {Others} _.
Arguments palnames {Others} _.
Arguments Misc {Others} _.

(** The state a statement runs in: the unread stream, the calls made so far
    (latest first) and the destinations. *)
Record world (Others : Type) := {
  file : list byte;
  log : list event;
  mem : tables Others
}.
Arguments file {Others} _.
Arguments log {Others} _.
Arguments mem {Others} _.

(** What a call leaves behind: how it ended, the destinations, the calls
    made in order, and the unread rest of the stream. *)
Inductive ending := Returned (code : status).

Record run (Others : Type) := {
  ended : ending;
  dest : tables Others;
  trace : list event;
  unread : list byte
}.
Arguments ended {Others} _.
Arguments dest {Others} _.
Arguments trace {Others} _.
Arguments unread {Others} _.

(** ** Byte buffers *)

(** Modelled from the spec: the input stream contract (sequential reads of
    N raw bytes that succeed or fail); the reader functions [pfread],
    [p_igetw], [p_igetl] and [p_getc] are defined outside this file.  The
    stream is the list of bytes still to be read and a read fails when
    fewer bytes remain than it needs. *)
Fixpoint pack_fread (n : nat) (f : list byte) : option (list byte * list byte) :=
  match n with
  | O => Some ([], f)
  | S n' =>
      match f with
      | [] => None
      | b :: f' =>
          match pack_fread n' f' with
          | Some (bs, r) => Some (b :: bs, r)
          | None => None
          end
      end
  end.

(** [overlay data l] writes [data] over the front of [l], [blit off data l]
    writes it at offset [off]; both stop at the end of [l]. *)
Fixpoint overlay {A} (data l : list A) : list A :=
  match data, l with
  | d :: ds, _ :: l' => d :: overlay ds l'
  | _, _ => l
  end.

Fixpoint blit {A} (off : nat) (data l : list A) : list A :=
  match off, l with
  | O, _ => overlay data l
  | S o, x :: l' => x :: blit o data l'
  | S _, [] => []
  end.

(** [memcpy(buf+dst, buf+src, n)] and [memset(buf+off, 0, n)] on one buffer.
    The source bytes are taken before any is written; the two agree whenever
    the ranges do not overlap, which is all C defines. *)
Definition memcpy (dst src n : nat) (buf : list byte) : list byte :=
  blit dst (take n (drop src buf)) buf.

Definition memset0 (off n : nat) (buf : list byte) : list byte :=
  blit off (replicate n x00) buf.

(** ** A concrete layout *)

(** The layout used for the concrete runs: 15 full data sets, 13 per level
    and 30 for sprites, with 15, 256 and 512 levels in the three
    generations, and names of 17 bytes. *)
Definition quest_layout : Layout := {|
  oldpdTOTAL := 15 + 13 * 15 + 30;
  newpdTOTAL := 15 + 13 * 256 + 30;
  newerpdTOTAL := 15 + 13 * 512 + 30;
  oldpoSPRITE := 15 + 13 * 15;
  newpoSPRITE := 15 + 13 * 256;
  newerpoSPRITE := 15 + 13 * 512;
  PALNAMESIZE := 17;
  OLDMAXLEVELS := 256;
  MAXLEVELS := 512
|}.

Definition bytes (n : N) (b : byte) : list byte := replicate (N.to_nat n) b.

(** Destinations as a caller allocates them, filled with [b]: in [Misc] the
    cycle table, six cells of fields behind it, and the fields in front of
    it standing for themselves as [o]. *)
Definition filled_tables {Others} (b : byte) (o : Others) : tables Others :=
  {| colordata := bytes (6701 * 48) b;
     palnames := replicate 512 (bytes 17 b);
     Misc := {| cycles := replicate 256 (replicate 3 {| first := b; count := b; speed := b |});
                behind := replicate 6 {| first := b; count := b; speed := b |};
                others := o |} |}.

(** Modelled from the spec: [init_palnames], defined outside this file,
    resets the whole name table to zeroed names. *)
Definition zero_palnames (p : list (list byte)) : list (list byte) :=
  replicate 512 (bytes 17 x00).

Section Decoder.

Context {L : Layout}.
Context {Others : Type}.

(** [init_palnames] is defined outside this file; it is a function of the
    name table. *)
Variable init_palnames : list (list byte) -> list (list byte).

Definition set_file (f : list byte) (w : world Others) : world Others :=
  {| file := f; log := log w; mem := mem w |}.
Definition set_mem (m : tables Others) (w : world Others) : world Others :=
  {| file := file w; log := log w; mem := m |}.

(** ** The monad of the function body

    A statement either falls through with a value or leaves the function
    with [return code]. *)
Inductive step (A : Type) :=
| Next (a : A)
| Return (code : status).
Arguments Next {A} _.
Arguments Return {A} _.

Definition M (A : Type) := world Others -> step A * world Others.

Definition ret {A} (a : A) : M A := fun w => (Next a, w).

Definition bind {A B} (m : M A) (k : A -> M B) : M B :=
  fun w =>
    match m w with
    | (Next a, w') => k a w'
    | (Return c, w') => (Return c, w')
    end.

Notation "x <- m ;; k" := (bind m (fun x => k))
  (at level 20, m at level 99, k at level 200, only parsing).
Notation "m ;;; k" := (bind m (fun _ => k))
  (at level 100, k at level 200, only parsing, right associativity).

Definition leave {A} (c : status) : M A := fun w => (Return c, w).

Definition emit (e : event) : M unit :=
  fun w => (Next tt, {| file := file w; log := e :: log w; mem := mem w |}).

Definition gets {A} (f : tables Others -> A) : M A := fun w => (Next (f (mem w)), w).

Definition modify (f : tables Others -> tables Others) : M unit :=
  fun w => (Next tt, set_mem (f (mem w)) w).

(** [if(keepdata==true) { m }] *)
Notation "'when' b 'then' m" := (if b then m else ret tt)
  (at level 10, b at level 99, m at level 200, only parsing).

(** [for (int i = start; i < start + n; ++i) body], with the locals the body
    changes threaded through as [s]. *)
Fixpoint for_loop {T} (n : nat) (i : nat) (body : nat -> T -> M T) (s : T) : M T :=
  match n with
  | O => ret s
  | S n' => s' <- body i s ;; for_loop n' (S i) body s'
  end.

(** *** The readers *)

(** Modelled from the spec: [pfread(p, n, f, true)], defined outside this
    file, reads [n] raw bytes or fails. *)
Definition pfread (n : nat) : M (option (list byte)) :=
  emit (Call_fread n) ;;;
  fun w =>
    match pack_fread n (file w) with
    | Some (bs, r) => (Next (Some bs), set_file r w)
    | None => (Next None, w)
    end.

(** Modelled from the spec: [p_igetw], defined outside this file, reads one
    little-endian 16-bit word or fails. *)
Definition p_igetw : M (option Z) :=
  emit Call_igetw ;;;
  fun w =>
    match file w with
    | b0 :: b1 :: r => (Next (Some (word16 b0 b1)), set_file r w)
    | _ => (Next None, w)
    end.

(** Modelled from the spec: [p_igetl], defined outside this file, reads one
    little-endian 32-bit integer or fails. *)
Definition p_igetl : M (option Z) :=
  emit Call_igetl ;;;
  fun w =>
    match file w with
    | b0 :: b1 :: b2 :: b3 :: r => (Next (Some (word32 b0 b1 b2 b3)), set_file r w)
    | _ => (Next None, w)
    end.

(** Modelled from the spec: [p_getc], defined outside this file, reads one
    byte or fails. *)
Definition p_getc : M (option byte) :=
  emit Call_getc ;;;
  fun w =>
    match file w with
    | b :: r => (Next (Some b), set_file r w)
    | [] => (Next None, w)
    end.

(** [if(!read(...)) return qe_invalid;] *)
Definition require {A} (m : M (option A)) : M A :=
  r <- m ;;
  match r with
  | Some a => ret a
  | None => leave qe_invalid
  end.

(** *** Stores into the destinations *)

Definition map_colordata (f : list byte -> list byte) (t : tables Others) : tables Others :=
  {| colordata := f (colordata t); palnames := palnames t; Misc := Misc t |}.

Definition map_palnames (f : list (list byte) -> list (list byte)) (t : tables Others)
    : tables Others :=
  {| colordata := colordata t; palnames := f (palnames t); Misc := Misc t |}.

Definition set_Misc (m : miscQdata Others) (t : tables Others) : tables Others :=
  {| colordata := colordata t; palnames := palnames t; Misc := m |}.

Definition on_colordata (f : list byte -> list byte) : M unit :=
  modify (map_colordata f).

Definition on_palnames (f : list (list byte) -> list (list byte)) : M unit :=
  modify (map_palnames f).

Definition put_Misc (m : miscQdata Others) : M unit :=
  modify (set_Misc m).

(** A store into [temp_misc.cycles[i][j]].  The table has 256 rows and the
    index is not checked: for [i >= 256] the cell addressed is cell
    [3 * (i - 256) + j] of the memory behind the table.  Where that is
    still inside the aggregate the store changes the field laid out there;
    farther out the cell is in the frame of the call, of which the state
    keeps nothing, so the working copy is as it was.  Either way the
    function goes on. *)
Definition store_cycle (i j : nat) (f : palcycle -> palcycle)
    (tm : miscQdata Others) : miscQdata Others :=
  if decide (i < 256)%nat
  then {| cycles := alter (alter f j) i (cycles tm);
          behind := behind tm; others := others tm |}
  else if decide (3 * (i - 256) + j < length (behind tm))%nat
  then {| cycles := cycles tm;
          behind := alter f (3 * (i - 256) + j)%nat (behind tm);
          others := others tm |}
  else tm.

Definition on_cycle (i j : nat) (f : palcycle -> palcycle)
    (tm : miscQdata Others) : M (miscQdata Others) :=
  ret (store_cycle i j f tm).

(** ** The decoder, phase by phase *)

(** Lines 32-51: the section header. *)
Definition read_header (version : Z) : M Z :=
  if 0x192 <? version then
    s_version <- require p_igetw ;;
    _ <- require p_igetw ;;
    _ <- require p_igetl ;;
    ret s_version
  else ret 0.

(** Lines 54-67, 85-96 and 108-119: [n] records read into the slots from
    [base] on. *)
Definition read_records (keepdata : bool) (base n : nat) : M unit :=
  for_loop n 0%nat (fun i _ =>
    temp_colordata <- require (pfread 48) ;;
    when keepdata then on_colordata (blit ((base + i) * 48) temp_colordata)) tt.

(** Lines 73-78. *)
Definition relocate_oldest (c : list byte) : list byte :=
  let c := memcpy (newerpoSPRITE * 48) (oldpoSPRITE * 48) (30 * 16 * 3) c in
  let c := memset0 (oldpoSPRITE * 48) ((newerpoSPRITE - oldpoSPRITE) * 48) c in
  let c := memcpy ((newerpoSPRITE + 11) * 48) ((newerpoSPRITE + 10) * 48) 48 c in
  let c := memcpy ((newerpoSPRITE + 10) * 48) ((newerpoSPRITE + 9) * 48) 48 c in
  let c := memcpy ((newerpoSPRITE + 9) * 48) ((newerpoSPRITE + 8) * 48) 48 c in
  memset0 ((newerpoSPRITE + 8) * 48) 48 c.

(** Lines 102-103. *)
Definition relocate_old (c : list byte) : list byte :=
  let c := memcpy (newerpoSPRITE * 48) (newpoSPRITE * 48) (30 * 16 * 3) c in
  memset0 (newpoSPRITE * 48) ((newerpoSPRITE - newpoSPRITE) * 48) c.

(** The conditions of lines 69 and 123. *)
Definition legacy_colors (version build : Z) : bool :=
  (version <? 0x192) || ((version =? 0x192) && (build <? 73)).

Definition legacy_names (version build : Z) : bool :=
  (version <? 0x192) || ((version =? 0x192) && (build <? 76)).

(** Lines 54-121: the colour table. *)
Definition read_colors (version build s_version : Z) (keepdata : bool) : M unit :=
  read_records keepdata 0 oldpdTOTAL ;;;
  if legacy_colors version build then
    (when keepdata then on_colordata relocate_oldest)
  else
    read_records keepdata oldpdTOTAL (newpdTOTAL - oldpdTOTAL) ;;;
    if s_version <? 4 then
      (when keepdata then on_colordata relocate_old)
    else
      read_records keepdata newpdTOTAL (newerpdTOTAL - newpdTOTAL).

(** Lines 132-137. *)
Definition palnamestoread (s_version : Z) : nat :=
  if s_version <? 3 then OLDMAXLEVELS else 512%nat.

(** Lines 123-161: the palette names. *)
Definition read_palnames (version build s_version : Z) (keepdata : bool) : M unit :=
  if legacy_names version build then
    (when keepdata then (emit Call_init_palnames ;;; on_palnames init_palnames))
  else
    for_loop (palnamestoread s_version) 0%nat (fun i _ =>
      temp_palname <- require (pfread PALNAMESIZE) ;;
      when keepdata then on_palnames (<[i := temp_palname]>)) tt ;;;
    when keepdata then
      (for_loop (MAXLEVELS - palnamestoread s_version) (palnamestoread s_version)
         (fun i _ => on_palnames (<[i := replicate PALNAMESIZE x00]>)) tt).

(** Lines 165-173. *)
Definition clear_cycles (tm : miscQdata Others) : M (miscQdata Others) :=
  for_loop 256 0%nat (fun i tm =>
    for_loop 3 0%nat (fun j tm =>
      tm <- on_cycle i j (set_first x00) tm ;;
      tm <- on_cycle i j (set_count x00) tm ;;
      on_cycle i j (set_speed x00) tm) tm) tm.

(** One of the three inner loops of lines 182-204. *)
Definition read_field (set : byte -> palcycle -> palcycle) (i : nat)
    (tm : miscQdata Others) : M (miscQdata Others) :=
  for_loop 3 0%nat (fun j tm =>
    v <- require p_getc ;;
    on_cycle i j (set v) tm) tm.

(** The body of the loop of lines 180-205. *)
Definition read_row (i : nat) (tm : miscQdata Others) : M (miscQdata Others) :=
  tm <- read_field set_first i tm ;;
  tm <- read_field set_count i tm ;;
  read_field set_speed i tm.

(** Lines 165-205: the cycles, read into the working copy. *)
Definition read_cycles (tm : miscQdata Others) : M (miscQdata Others) :=
  tm <- clear_cycles tm ;;
  palcycles <- require p_igetw ;;
  for_loop (Z.to_nat palcycles) 0%nat read_row tm.

(** Lines 19-214: the body of [readcolordata]. *)
Definition readcolordata_body (version build : Z) (keepdata : bool) : M unit :=
  temp_misc <- gets Misc ;;
  s_version <- read_header version ;;
  read_colors version build s_version keepdata ;;;
  read_palnames version build s_version keepdata ;;;
  (if 0x192 <? version then
     temp_misc <- read_cycles temp_misc ;;
     (when keepdata then put_Misc temp_misc)
   else ret tt) ;;;
  leave qe_OK.

(** A call on the stream [f] with the destinations holding [t]. *)
Definition readcolordata (f : list byte) (t : tables Others) (version build : Z)
    (keepdata : bool) : run Others :=
  let '(r, w) := readcolordata_body version build keepdata
                   {| file := f; log := []; mem := t |} in
  {| ended := match r with
              | Next _ => Returned qe_OK
              | Return c => Returned c
              end;
     dest := mem w;
     trace := rev (log w);
     unread := file w |}.

(** ** Notions used to state the properties *)

(** What every statement outside the final commit leaves alone: the [Misc]
    aggregate always, every destination when [keepdata] is false; and every
    call it logs is one of [P]. *)
Definition kept (keepdata : bool) (P : event -> Prop) (w w' : world Others) : Prop :=
  Misc (mem w') = Misc (mem w) /\
  (keepdata = false -> mem w' = mem w) /\
  exists new, log w' = new ++ log w /\ Forall P new.

Definition respects {A} (keepdata : bool) (P : event -> Prop) (m : M A) : Prop :=
  forall w, kept keepdata P w (m w).2 /\ (m w).1 <> Return qe_OK.


Definition block_call (e : event) : Prop :=
  match e with
  | Call_fread _ | Call_init_palnames => True
  | _ => False
  end.

Definition header_calls : list event := [Call_igetw; Call_igetw; Call_igetl].

(** The header calls made on a stream of [n] bytes: up to the first field
    that the stream is too short for. *)
Definition header_attempt (n : nat) : list event :=
  if (n <? 2)%nat then [Call_igetw]
  else if (n <? 4)%nat then [Call_igetw; Call_igetw]
  else header_calls.

(** *** Closed forms of a decode that gets every byte it asks for *)

Definition header_size (version : Z) : nat :=
  if 0x192 <? version then 8%nat else 0%nat.

Definition sub_version (version : Z) (f : list byte) : Z :=
  if 0x192 <? version then
    match f with
    | b0 :: b1 :: _ => word16 b0 b1
    | _ => 0
    end
  else 0.

Definition color_records (version build s_version : Z) : nat :=
  if legacy_colors version build then oldpdTOTAL
  else if s_version <? 4 then (oldpdTOTAL + (newpdTOTAL - oldpdTOTAL))%nat
  else (oldpdTOTAL + (newpdTOTAL - oldpdTOTAL) + (newerpdTOTAL - newpdTOTAL))%nat.

Definition stored_colors (version build s_version : Z) (data c : list byte)
    : list byte :=
  let c := blit 0 (take (oldpdTOTAL * 48) data) c in
  if legacy_colors version build then relocate_oldest c
  else
    let data := drop (oldpdTOTAL * 48) data in
    let c := blit (oldpdTOTAL * 48) (take ((newpdTOTAL - oldpdTOTAL) * 48) data) c in
    if s_version <? 4 then relocate_old c
    else blit (newpdTOTAL * 48) (drop ((newpdTOTAL - oldpdTOTAL) * 48) data) c.

Fixpoint iter_from {T} (g : nat -> T -> T) (n i : nat) (s : T) : T :=
  match n with
  | O => s
  | S n' => iter_from g n' (S i) (g i s)
  end.

Fixpoint store_names (n i : nat) (data : list byte) (p : list (list byte))
    : list (list byte) :=
  match n with
  | O => p
  | S n' =>
      store_names n' (S i) (drop PALNAMESIZE data) (<[i := take PALNAMESIZE data]> p)
  end.

Definition name_records (version build s_version : Z) : nat :=
  if legacy_names version build then 0%nat else palnamestoread s_version.

Definition stored_names (version build s_version : Z) (data : list byte)
    (p : list (list byte)) : list (list byte) :=
  if legacy_names version build then init_palnames p
  else
    iter_from (fun i p => <[i := replicate PALNAMESIZE x00]> p)
      (MAXLEVELS - palnamestoread s_version) (palnamestoread s_version)
      (store_names (palnamestoread s_version) 0 data p).

Definition names_calls (version build s_version : Z) (keepdata : bool) : list event :=
  if legacy_names version build then
    if keepdata then [Call_init_palnames] else []
  else replicate (palnamestoread s_version) (Call_fread PALNAMESIZE).

Definition clear_cell (i j : nat) (c : list (list palcycle)) : list (list palcycle) :=
  alter (alter (set_speed x00) j) i
    (alter (alter (set_count x00) j) i
       (alter (alter (set_first x00) j) i c)).

Definition cleared : list (list palcycle) -> list (list palcycle) :=
  iter_from (fun i => iter_from (clear_cell i) 3 0) 256 0.



Definition with_cycles (f : list (list palcycle) -> list (list palcycle))
    (tm : miscQdata Others) : miscQdata Others :=
  {| cycles := f (cycles tm); behind := behind tm; others := others tm |}.

(** The working copy after one of the three inner loops has stored
    [b0 b1 b2] in row [i], and after [n] rows from [i] on have been read
    from [data]; a row at or past 256 is stored behind the table. *)
Definition store_field (set : byte -> palcycle -> palcycle) (i : nat)
    (b0 b1 b2 : byte) (tm : miscQdata Others) : miscQdata Others :=
  store_cycle i 2 (set b2) (store_cycle i 1 (set b1) (store_cycle i 0 (set b0) tm)).

Fixpoint store_rows (n i : nat) (data : list byte) (tm : miscQdata Others)
    : miscQdata Others :=
  match n with
  | O => tm
  | S n' =>
      match data with
      | f0 :: f1 :: f2 :: c0 :: c1 :: c2 :: s0 :: s1 :: s2 :: rest =>
          store_rows n' (S i) rest
            (store_field set_speed i s0 s1 s2
               (store_field set_count i c0 c1 c2
                  (store_field set_first i f0 f1 f2 tm)))
      | _ => tm
      end
  end.

(** What the three inner loops do to one row, from the nine bytes at [9 * k]. *)
Definition load_row (data : list byte) (k : nat) (row : list palcycle) : list palcycle :=
  let b o := default x00 (data !! (9 * k + o)%nat) in
  alter (set_speed (b 8%nat)) 2%nat (alter (set_speed (b 7%nat)) 1%nat
    (alter (set_speed (b 6%nat)) 0%nat
      (alter (set_count (b 5%nat)) 2%nat (alter (set_count (b 4%nat)) 1%nat
        (alter (set_count (b 3%nat)) 0%nat
          (alter (set_first (b 2%nat)) 2%nat (alter (set_first (b 1%nat)) 1%nat
            (alter (set_first (b 0%nat)) 0%nat row)))))))).

Definition clear_row (row : list palcycle) : list palcycle :=
  iter_from (fun j => alter (fun _ => no_cycle) j) 3 0 row.



(** The stream after each phase, and the bytes each table phase consumes. *)
Definition after_header (version : Z) (f : list byte) : list byte :=
  drop (header_size version) f.

Definition color_bytes (version build : Z) (f : list byte) : list byte :=
  take (color_records version build (sub_version version f) * 48)
    (after_header version f).

Definition after_colors (version build : Z) (f : list byte) : list byte :=
  drop (color_records version build (sub_version version f) * 48)
    (after_header version f).

Definition name_bytes (version build : Z) (f : list byte) : list byte :=
  take (name_records version build (sub_version version f) * PALNAMESIZE)
    (after_colors version build f).

Definition after_names (version build : Z) (f : list byte) : list byte :=
  drop (name_records version build (sub_version version f) * PALNAMESIZE)
    (after_colors version build f).

(** The calls of a decode that returns [0], up to the cycle section. *)
Definition table_calls (version build : Z) (keepdata : bool) (f : list byte)
    : list event :=
  (if 0x192 <? version then header_calls else []) ++
  replicate (color_records version build (sub_version version f)) (Call_fread 48) ++
  names_calls version build (sub_version version f) keepdata.

Definition committed (keepdata : bool) (o : option (miscQdata Others))
    (t : tables Others) : tables Others :=
  match o with
  | Some temp_misc => if keepdata then set_Misc temp_misc t else t
  | None => t
  end.

(** Everything between the header and the final commit. *)
Definition after_the_header (version build s_version : Z) (keepdata : bool)
    (temp_misc : miscQdata Others) : M (option (miscQdata Others)) :=
  read_colors version build s_version keepdata ;;;
  read_palnames version build s_version keepdata ;;;
  if 0x192 <? version then
    temp_misc <- read_cycles temp_misc ;;
    ret (Some temp_misc)
  else ret None.

(** Everything before the final commit and [return 0]. *)
Definition before_commit (version build : Z) (keepdata : bool)
    : M (option (miscQdata Others)) :=
  temp_misc <- gets Misc ;;
  s_version <- read_header version ;;
  after_the_header version build s_version keepdata temp_misc.

Definition commit (keepdata : bool) (o : option (miscQdata Others)) : M unit :=
  match o with
  | Some temp_misc => when keepdata then put_Misc temp_misc
  | None => ret tt
  end.

(** *** The size of the section *)

(** The count of cycle rows a stream positioned at the cycle section
    declares, and the one a call reads ([0] when it reads none). *)
Definition cycle_rows (f : list byte) : nat :=
  match f with
  | lo :: hi :: _ => Z.to_nat (word16 lo hi)
  | _ => 0%nat
  end.

Definition declared_rows (version build : Z) (f : list byte) : nat :=
  if 0x192 <? version then cycle_rows (after_names version build f) else 0%nat.

Definition cycles_size (version build : Z) (f : list byte) : nat :=
  if 0x192 <? version then (2 + 9 * declared_rows version build f)%nat else 0%nat.

(** The bytes a call that returns [0] takes from the stream. *)
Definition section_size (version build : Z) (f : list byte) : nat :=
  (header_size version +
   color_records version build (sub_version version f) * 48 +
   name_records version build (sub_version version f) * PALNAMESIZE +
   cycles_size version build f)%nat.

(** *** Two runs on one stream *)

Definition same_step {A B} (R : A -> B -> Prop) (s1 : step A) (s2 : step B) : Prop :=
  match s1, s2 with
  | Next a, Next b => R a b
  | Return c1, Return c2 => c1 = c2
  | _, _ => False
  end.

(** Started on the same unread stream, [m1] and [m2] end the same way and
    leave the same stream, whatever the destinations hold. *)
Definition agree {A B} (R : A -> B -> Prop) (m1 : M A) (m2 : M B) : Prop :=
  forall w1 w2, file w1 = file w2 ->
    same_step R (m1 w1).1 (m2 w2).1 /\ file (m1 w1).2 = file (m2 w2).2.

(** The state with [g] appended to the unread stream. *)
Definition extend (g : list byte) (w : world Others) : world Others :=
  set_file (file w ++ g) w.

(** A statement that falls through does the same with more bytes behind. *)
Definition forward {A} (g : list byte) (m : M A) : Prop :=
  forall w a w', m w = (Next a, w') -> m (extend g w) = (Next a, extend g w').

(** A statement that only stores: it falls through and reads nothing. *)
Definition still (m : M unit) : Prop :=
  forall w, exists w', m w = (Next tt, w') /\ file w' = file w.

(** The colour table after the two read loops of the extended layout
    (lines 54-67 and 85-96), before any relocation. *)
Definition read_extended (data c : list byte) : list byte :=
  blit (oldpdTOTAL * 48)
    (take ((newpdTOTAL - oldpdTOTAL) * 48) (drop (oldpdTOTAL * 48) data))
    (blit 0 (take (oldpdTOTAL * 48) data) c).

(** ** Buffers: reading and overwriting *)

Lemma pack_fread_Some n f bs r :
  pack_fread n f = Some (bs, r) <-> f = bs ++ r /\ length bs = n.
Proof.
  revert f bs r. induction n as [|n IH]; intros f bs r; simpl.
  - split.
    + intros [= <- <-]. done.
    + intros [-> Hl]. destruct bs; [done | discriminate].
  - destruct f as [|b f'].
    + split; [done|]. intros [Hf Hl]. destruct bs; discriminate.
    + destruct (pack_fread n f') as [[bs' r']|] eqn:E.
      * apply IH in E as [-> <-]. split.
        -- intros [= <- <-]. done.
        -- intros [Hf Hl]. destruct bs as [|b0 bs]; [discriminate|].
           simpl in Hf, Hl. injection Hf as <- Hf. injection Hl as Hl.
           assert (bs = bs' /\ r = r') as [-> ->]; [|done].
           split.
           ++ apply (f_equal (take (length bs'))) in Hf.
              rewrite take_app_length in Hf. rewrite <- Hl in Hf.
              rewrite take_app_length in Hf. done.
           ++ apply (f_equal (drop (length bs'))) in Hf.
              rewrite drop_app_length in Hf. rewrite <- Hl in Hf.
              rewrite drop_app_length in Hf. done.
      * split; [done|]. intros [Hf Hl].
        destruct bs as [|b0 bs]; [discriminate|].
        simpl in Hf, Hl. injection Hf as <- Hf. injection Hl as Hl.
        assert (pack_fread n f' = Some (bs, r)) as E' by (apply IH; done).
        congruence.
Qed.

Lemma pack_fread_take n f :
  (n <= length f)%nat -> pack_fread n f = Some (take n f, drop n f).
Proof.
  intros Hn. apply pack_fread_Some. split.
  - by rewrite take_drop.
  - rewrite length_take. lia.
Qed.

Lemma pack_fread_None n f :
  (length f < n)%nat -> pack_fread n f = None.
Proof.
  intros Hn. destruct (pack_fread n f) as [[bs r]|] eqn:E; [|done].
  apply pack_fread_Some in E as [-> <-]. rewrite length_app in Hn. lia.
Qed.

Lemma length_overlay {A} (d l : list A) : length (overlay d l) = length l.
Proof.
  revert l. induction d as [|x d IH]; intros [|y l]; simpl; auto.
Qed.

Lemma length_blit {A} off (d l : list A) : length (blit off d l) = length l.
Proof.
  revert l. induction off as [|off IH]; intros l; simpl.
  - apply length_overlay.
  - destruct l; simpl; auto.
Qed.

Lemma lookup_overlay {A} (d l : list A) (i : nat) :
  overlay d l !! i =
    if decide (i < length d /\ i < length l)%nat then d !! i else l !! i.
Proof.
  revert l i. induction d as [|x d IH]; intros l i.
  - case_decide as H; [simpl in H; lia | done].
  - destruct l as [|y l].
    + case_decide as H; [simpl in H; lia | done].
    + destruct i as [|i]; cbn [overlay lookup list_lookup length].
      * case_decide as H; [done | exfalso; apply H; lia].
      * rewrite IH. repeat case_decide; try done; lia.
Qed.

Lemma lookup_blit {A} off (d l : list A) (i : nat) :
  blit off d l !! i =
    if decide (off <= i /\ i < off + length d /\ i < length l)%nat
    then d !! (i - off)%nat else l !! i.
Proof.
  revert l i. induction off as [|off IH]; intros l i; cbn [blit].
  - rewrite lookup_overlay, Nat.sub_0_r.
    repeat case_decide; try done; lia.
  - destruct l as [|y l].
    + case_decide as H; [simpl in H; lia | done].
    + destruct i as [|i]; cbn [lookup list_lookup length].
      * case_decide; [lia | done].
      * rewrite IH. repeat case_decide; try done; lia.
Qed.

Lemma blit_nil {A} off (l : list A) : blit off [] l = l.
Proof.
  apply list_eq. intros i. rewrite lookup_blit.
  case_decide as H; [simpl in H; lia | done].
Qed.

Lemma blit_app {A} off (d1 d2 l : list A) :
  blit (off + length d1) d2 (blit off d1 l) = blit off (d1 ++ d2) l.
Proof.
  apply list_eq. intros i. rewrite !lookup_blit, length_blit, length_app.
  repeat case_decide; try lia.
  - rewrite lookup_app_r by lia. f_equal. lia.
  - rewrite lookup_app_l by lia. done.
  - done.
Qed.

Lemma length_memcpy dst src n buf : length (memcpy dst src n buf) = length buf.
Proof. apply length_blit. Qed.

Lemma length_memset0 off n buf : length (memset0 off n buf) = length buf.
Proof. apply length_blit. Qed.

Lemma lookup_memcpy dst src n buf i :
  (src + n <= length buf)%nat ->
  memcpy dst src n buf !! i =
    if decide (dst <= i /\ i < dst + n /\ i < length buf)%nat
    then buf !! (src + (i - dst))%nat else buf !! i.
Proof.
  intros Hn. unfold memcpy. rewrite lookup_blit, length_take, length_drop.
  replace (n `min` (length buf - src))%nat with n by lia.
  case_decide; [|done].
  rewrite lookup_take_lt by lia. by rewrite lookup_drop.
Qed.

Lemma lookup_memset0 off n buf i :
  memset0 off n buf !! i =
    if decide (off <= i /\ i < off + n /\ i < length buf)%nat
    then Some x00 else buf !! i.
Proof.
  unfold memset0. rewrite lookup_blit, length_replicate.
  case_decide; [|done]. apply lookup_replicate_2. lia.
Qed.

(** ** The body one statement at a time *)

Implicit Types (w : world Others) (P : event -> Prop) (k : bool).

Lemma kept_same k P w w' : mem w' = mem w -> log w' = log w -> kept k P w w'.
Proof.
  intros Hm Hl. split; [by rewrite Hm|]. split; [done|]. exists []. by split.
Qed.

Lemma kept_refl k P w : kept k P w w.
Proof. by apply kept_same. Qed.

Lemma kept_trans k P w1 w2 w3 :
  kept k P w1 w2 -> kept k P w2 w3 -> kept k P w1 w3.
Proof.
  intros (Hm1 & Hk1 & n1 & Hl1 & HP1) (Hm2 & Hk2 & n2 & Hl2 & HP2).
  split; [congruence|]. split.
  - intros Hk. rewrite Hk2, Hk1; done.
  - exists (n2 ++ n1). split.
    + rewrite Hl2, Hl1. by rewrite app_assoc.
    + by apply Forall_app.
Qed.

Lemma kept_weaken k P Q w w' :
  (forall e, P e -> Q e) -> kept k P w w' -> kept k Q w w'.
Proof.
  intros HPQ (Hm & Hk & n & Hl & HP). repeat split; auto.
  exists n. split; [done|]. eapply Forall_impl; eauto.
Qed.

Lemma respects_ret {A} k P (a : A) : respects k P (ret a).
Proof. intros w. split; [apply kept_refl | done]. Qed.

Lemma respects_leave {A} k P : respects k P (leave (A := A) qe_invalid).
Proof. intros w. split; [apply kept_refl | done]. Qed.

Lemma respects_bind {A B} k P (m : M A) (f : A -> M B) :
  respects k P m -> (forall a, respects k P (f a)) -> respects k P (bind m f).
Proof.
  intros Hm Hf w. unfold bind. destruct (Hm w) as [Hk Hr].
  destruct (m w) as [[a|c] w1]; simpl in *.
  - destruct (Hf a w1) as [Hk' Hr']. split; [|done].
    eapply kept_trans; eauto.
  - split; [done|]. intros [= ->]. by apply Hr.
Qed.

Lemma respects_for_loop {T} k P n i (body : nat -> T -> M T) s :
  (forall i s, respects k P (body i s)) -> respects k P (for_loop n i body s).
Proof.
  intros Hb. revert i s. induction n as [|n IH]; intros i s; simpl.
  - apply respects_ret.
  - apply respects_bind; auto.
Qed.

Lemma respects_emit k P e : P e -> respects k P (emit e).
Proof.
  intros He w. split; [|done]. repeat split. exists [e]. split; [done|].
  by constructor.
Qed.

Lemma respects_gets {A} k P (f : tables Others -> A) : respects k P (gets f).
Proof. intros w. split; [apply kept_refl | done]. Qed.

Lemma respects_on_colordata P f : respects true P (on_colordata f).
Proof.
  intros w. split; [|done]. split; [done|]. split; [done|].
  exists []. by split.
Qed.

Lemma respects_on_palnames P f : respects true P (on_palnames f).
Proof.
  intros w. split; [|done]. split; [done|]. split; [done|].
  exists []. by split.
Qed.

Lemma respects_when k P (m : M unit) :
  respects true P m -> respects k P (when k then m).
Proof. intros Hm. destruct k; [done | apply respects_ret]. Qed.

Lemma respects_on_cycle k P i j f tm : respects k P (on_cycle i j f tm).
Proof.
  intros w. split; [apply kept_refl | done].
Qed.

Lemma respects_require {A} k P (m : M (option A)) :
  respects k P m -> respects k P (require m).
Proof.
  intros Hm. apply respects_bind; [done|].
  intros [a|]; [apply respects_ret | apply respects_leave].
Qed.

Lemma respects_pfread k P n : P (Call_fread n) -> respects k P (pfread n).
Proof.
  intros He. apply respects_bind; [by apply respects_emit|].
  intros _ w. destruct (pack_fread n (file w)) as [[bs r]|];
    (split; [by apply kept_same | done]).
Qed.

Lemma respects_p_igetw k P : P Call_igetw -> respects k P p_igetw.
Proof.
  intros He. apply respects_bind; [by apply respects_emit|].
  intros _ w. destruct (file w) as [|b0 [|b1 r]];
    (split; [by apply kept_same | done]).
Qed.

Lemma respects_p_igetl k P : P Call_igetl -> respects k P p_igetl.
Proof.
  intros He. apply respects_bind; [by apply respects_emit|].
  intros _ w. destruct (file w) as [|b0 [|b1 [|b2 [|b3 r]]]];
    (split; [by apply kept_same | done]).
Qed.

Lemma respects_p_getc k P : P Call_getc -> respects k P p_getc.
Proof.
  intros He. apply respects_bind; [by apply respects_emit|].
  intros _ w. destruct (file w) as [|b r];
    (split; [by apply kept_same | done]).
Qed.

(** *** The phases *)

Lemma respects_read_header k P version :
  (0x192 < version -> P Call_igetw /\ P Call_igetl) ->
  respects k P (read_header version).
Proof.
  intros HP. unfold read_header. destruct (0x192 <? version) eqn:E.
  - apply Z.ltb_lt in E. destruct (HP E) as [Hw Hl].
    apply respects_bind; [by apply respects_require, respects_p_igetw|].
    intros sv. apply respects_bind; [by apply respects_require, respects_p_igetw|].
    intros _. apply respects_bind; [by apply respects_require, respects_p_igetl|].
    intros _. apply respects_ret.
  - apply respects_ret.
Qed.

Lemma respects_read_records k P base n :
  P (Call_fread 48) -> respects k P (read_records k base n).
Proof.
  intros HP. apply respects_for_loop. intros i _.
  apply respects_bind; [by apply respects_require, respects_pfread|].
  intros rec. apply respects_when, respects_on_colordata.
Qed.

Lemma respects_read_colors k P version build s_version :
  P (Call_fread 48) -> respects k P (read_colors version build s_version k).
Proof.
  intros HP. unfold read_colors.
  apply respects_bind; [by apply respects_read_records|]. intros _.
  destruct (legacy_colors version build).
  - apply respects_when, respects_on_colordata.
  - apply respects_bind; [by apply respects_read_records|]. intros _.
    destruct (s_version <? 4).
    + apply respects_when, respects_on_colordata.
    + by apply respects_read_records.
Qed.

Lemma respects_read_palnames k P version build s_version :
  P (Call_fread PALNAMESIZE) -> P Call_init_palnames ->
  respects k P (read_palnames version build s_version k).
Proof.
  intros HP Hi. unfold read_palnames. destruct (legacy_names version build).
  - apply respects_when. apply respects_bind; [by apply respects_emit|].
    intros _. apply respects_on_palnames.
  - apply respects_bind.
    + apply respects_for_loop. intros i _.
      apply respects_bind; [by apply respects_require, respects_pfread|].
      intros rec. apply respects_when, respects_on_palnames.
    + intros _. apply respects_when. apply respects_for_loop.
      intros i _. apply respects_on_palnames.
Qed.

Lemma respects_clear_cycles k P tm : respects k P (clear_cycles tm).
Proof.
  apply respects_for_loop. intros i tm1. apply respects_for_loop. intros j tm2.
  apply respects_bind; [apply respects_on_cycle|]. intros tm3.
  apply respects_bind; [apply respects_on_cycle|]. intros tm4.
  apply respects_on_cycle.
Qed.

Lemma respects_read_field k P set i tm :
  P Call_getc -> respects k P (read_field set i tm).
Proof.
  intros HP. apply respects_for_loop. intros j tm1.
  apply respects_bind; [by apply respects_require, respects_p_getc|].
  intros v. apply respects_on_cycle.
Qed.

Lemma respects_read_cycles k P tm :
  P Call_igetw -> P Call_getc -> respects k P (read_cycles tm).
Proof.
  intros Hw Hc. unfold read_cycles.
  apply respects_bind; [apply respects_clear_cycles|]. intros tm1.
  apply respects_bind; [by apply respects_require, respects_p_igetw|].
  intros n. apply respects_for_loop. intros i tm2. unfold read_row.
  apply respects_bind; [by apply respects_read_field|]. intros tm3.
  apply respects_bind; [by apply respects_read_field|]. intros tm4.
  by apply respects_read_field.
Qed.

Lemma body_split version build keepdata w :
  readcolordata_body version build keepdata w =
  (o <- before_commit version build keepdata ;; commit keepdata o ;;; leave qe_OK) w.
Proof.
  unfold readcolordata_body, before_commit, after_the_header, bind, gets, commit,
    ret, leave.
  cbv beta iota.
  destruct (read_header version w) as [[sv|c] w1]; [|done..].
  destruct (read_colors version build sv keepdata w1) as [[[]|c] w2]; [|done..].
  destruct (read_palnames version build sv keepdata w2)
    as [[[]|c] w3]; [|done..].
  destruct (0x192 <? version); [|done].
  destruct (read_cycles (Misc (mem w)) w3) as [[tm|c] w4]; done.
Qed.

Lemma respects_after_the_header k P version build s_version tm :
  P (Call_fread 48) -> P (Call_fread PALNAMESIZE) -> P Call_init_palnames ->
  (0x192 < version -> P Call_igetw /\ P Call_getc) ->
  respects k P (after_the_header version build s_version k tm).
Proof.
  intros H48 Hn Hi Hv. unfold after_the_header.
  apply respects_bind; [by apply respects_read_colors|]. intros _.
  apply respects_bind; [by apply respects_read_palnames|]. intros _.
  destruct (0x192 <? version) eqn:E; [|apply respects_ret].
  apply Z.ltb_lt in E. destruct (Hv E) as (Hw & Hc).
  apply respects_bind; [by apply respects_read_cycles|]. intros tm'.
  apply respects_ret.
Qed.

Lemma respects_before_commit k P version build :
  P (Call_fread 48) -> P (Call_fread PALNAMESIZE) -> P Call_init_palnames ->
  (0x192 < version -> P Call_igetw /\ P Call_igetl /\ P Call_getc) ->
  respects k P (before_commit version build k).
Proof.
  intros H48 Hn Hi Hv. unfold before_commit.
  apply respects_bind; [apply respects_gets|]. intros tm.
  apply respects_bind.
  { apply respects_read_header. intros Hlt. by destruct (Hv Hlt) as (? & ? & ?). }
  intros sv. apply respects_after_the_header; try done.
  intros Hlt. by destruct (Hv Hlt) as (? & ? & ?).
Qed.

(** *** Reads that succeed and reads that fall short *)

Lemma require_pfread_ok n w :
  (n <= length (file w))%nat ->
  require (pfread n) w =
    (Next (take n (file w)),
     {| file := drop n (file w); log := Call_fread n :: log w; mem := mem w |}).
Proof.
  intros Hn. unfold require, pfread, bind, emit, ret. cbn [file log mem].
  by rewrite pack_fread_take.
Qed.

Lemma require_pfread_short n w :
  (length (file w) < n)%nat ->
  require (pfread n) w =
    (Return qe_invalid,
     {| file := file w; log := Call_fread n :: log w; mem := mem w |}).
Proof.
  intros Hn. unfold require, pfread, bind, emit, leave. cbn [file log mem].
  by rewrite pack_fread_None.
Qed.

Lemma require_p_igetw_ok b0 b1 r lg m :
  require p_igetw {| file := b0 :: b1 :: r; log := lg; mem := m |} =
    (Next (word16 b0 b1), {| file := r; log := Call_igetw :: lg; mem := m |}).
Proof. reflexivity. Qed.

Lemma require_p_igetw_short w :
  (length (file w) < 2)%nat ->
  require p_igetw w =
    (Return qe_invalid,
     {| file := file w; log := Call_igetw :: log w; mem := mem w |}).
Proof.
  destruct w as [[|b0 [|b1 r]] lg m]; cbn [file length]; intros Hn;
    try lia; reflexivity.
Qed.

Lemma require_p_igetl_ok b0 b1 b2 b3 r lg m :
  require p_igetl {| file := b0 :: b1 :: b2 :: b3 :: r; log := lg; mem := m |} =
    (Next (word32 b0 b1 b2 b3), {| file := r; log := Call_igetl :: lg; mem := m |}).
Proof. reflexivity. Qed.

Lemma require_p_igetl_short w :
  (length (file w) < 4)%nat ->
  require p_igetl w =
    (Return qe_invalid,
     {| file := file w; log := Call_igetl :: log w; mem := mem w |}).
Proof.
  destruct w as [[|b0 [|b1 [|b2 [|b3 r]]]] lg m]; cbn [file length]; intros Hn;
    try lia; reflexivity.
Qed.

Lemma require_p_getc_ok b r lg m :
  require p_getc {| file := b :: r; log := lg; mem := m |} =
    (Next b, {| file := r; log := Call_getc :: lg; mem := m |}).
Proof. reflexivity. Qed.

Lemma require_p_getc_short lg m :
  require p_getc {| file := []; log := lg; mem := m |} =
    (Return qe_invalid, {| file := []; log := Call_getc :: lg; mem := m |}).
Proof. reflexivity. Qed.

Lemma replicate_cons_app {A} n (x : A) l :
  replicate n x ++ x :: l = replicate (S n) x ++ l.
Proof.
  induction n as [|n IH]; [done|].
  cbn [replicate app] in *. by rewrite IH.
Qed.

(** *** The header *)

Lemma read_header_old version w :
  version <= 0x192 -> read_header version w = (Next 0, w).
Proof.
  intros Hv. unfold read_header.
  destruct (0x192 <? version) eqn:E; [apply Z.ltb_lt in E; lia | done].
Qed.

Lemma read_header_ok version b0 b1 b2 b3 b4 b5 b6 b7 r lg m :
  0x192 < version ->
  read_header version
    {| file := b0 :: b1 :: b2 :: b3 :: b4 :: b5 :: b6 :: b7 :: r; log := lg; mem := m |} =
  (Next (word16 b0 b1),
   {| file := r; log := Call_igetl :: Call_igetw :: Call_igetw :: lg; mem := m |}).
Proof.
  intros Hv. unfold read_header. apply Z.ltb_lt in Hv. rewrite Hv. reflexivity.
Qed.

Lemma read_header_short version w :
  0x192 < version -> (length (file w) < 8)%nat ->
  exists f',
    read_header version w =
      (Return qe_invalid,
       {| file := f';
          log := rev (header_attempt (length (file w))) ++ log w;
          mem := mem w |}).
Proof.
  intros Hv Hn. unfold read_header. apply Z.ltb_lt in Hv. rewrite Hv.
  destruct w as [f lg m]. cbn [file log mem] in *.
  destruct f as [|b0 [|b1 [|b2 [|b3 [|b4 [|b5 [|b6 [|b7 h]]]]]]]];
    try (eexists; reflexivity).
  cbn [length] in Hn. lia.
Qed.

(** *** The colour records *)

Lemma map_colordata_id (t : tables Others) off : map_colordata (blit off []) t = t.
Proof. destruct t. unfold map_colordata. cbn. by rewrite blit_nil. Qed.

Lemma records_loop_ok k base n i w :
  (n * 48 <= length (file w))%nat ->
  for_loop n i (fun i (_ : unit) =>
    temp_colordata <- require (pfread 48) ;;
    when k then on_colordata (blit ((base + i) * 48) temp_colordata)) tt w =
  (Next tt,
   {| file := drop (n * 48) (file w);
      log := replicate n (Call_fread 48) ++ log w;
      mem := if k
             then map_colordata (blit ((base + i) * 48) (take (n * 48) (file w))) (mem w)
             else mem w |}).
Proof.
  revert i w. induction n as [|n IH]; intros i w Hn.
  - cbn [for_loop Nat.mul take drop replicate app]. unfold ret.
    rewrite map_colordata_id. destruct w, k; reflexivity.
  - cbn [for_loop]. unfold bind at 1. unfold bind at 1.
    rewrite require_pfread_ok by lia.
    assert (length (take 48 (file w)) = 48%nat) as Hl
      by (rewrite length_take; lia).
    destruct k.
    + unfold on_colordata, modify, set_mem. cbn [file log mem].
      rewrite IH by (cbn [file]; rewrite length_drop; lia).
      cbn [file log mem]. f_equal. f_equal.
      * rewrite drop_drop. f_equal; lia.
      * by rewrite replicate_cons_app.
      * unfold map_colordata. cbn [colordata palnames Misc]. f_equal.
        replace ((base + S i) * 48)%nat
          with ((base + i) * 48 + length (take 48 (file w)))%nat by lia.
        rewrite blit_app, take_take_drop. do 2 f_equal; lia.
    + unfold ret. rewrite IH by (cbn [file]; rewrite length_drop; lia).
      cbn [file log mem]. f_equal. f_equal.
      * rewrite drop_drop. f_equal; lia.
      * by rewrite replicate_cons_app.
Qed.

Lemma records_loop_short k base n i w :
  (length (file w) < n * 48)%nat ->
  exists w',
    for_loop n i (fun i (_ : unit) =>
      temp_colordata <- require (pfread 48) ;;
      when k then on_colordata (blit ((base + i) * 48) temp_colordata)) tt w =
    (Return qe_invalid, w').
Proof.
  revert i w. induction n as [|n IH]; intros i w Hn; [cbn in Hn; lia|].
  cbn [for_loop]. unfold bind at 1. unfold bind at 1.
  destruct (decide (48 <= length (file w))%nat) as [H48|H48].
  - rewrite require_pfread_ok by done.
    destruct k.
    + unfold on_colordata, modify, set_mem. cbn [file log mem].
      apply IH. cbn [file]. rewrite length_drop. lia.
    + unfold ret. apply IH. cbn [file]. rewrite length_drop. lia.
  - rewrite require_pfread_short by lia. eauto.
Qed.

Lemma read_records_ok k base n w :
  (n * 48 <= length (file w))%nat ->
  read_records k base n w =
  (Next tt,
   {| file := drop (n * 48) (file w);
      log := replicate n (Call_fread 48) ++ log w;
      mem := if k
             then map_colordata (blit (base * 48) (take (n * 48) (file w))) (mem w)
             else mem w |}).
Proof.
  intros Hn. unfold read_records. rewrite records_loop_ok by done.
  by rewrite Nat.add_0_r.
Qed.

Lemma read_records_short k base n w :
  (length (file w) < n * 48)%nat ->
  exists w', read_records k base n w = (Return qe_invalid, w').
Proof. apply records_loop_short. Qed.

Lemma read_colors_ok version build s_version k w :
  (color_records version build s_version * 48 <= length (file w))%nat ->
  read_colors version build s_version k w =
  (Next tt,
   {| file := drop (color_records version build s_version * 48) (file w);
      log := replicate (color_records version build s_version) (Call_fread 48) ++ log w;
      mem := if k
             then map_colordata
                    (stored_colors version build s_version
                       (take (color_records version build s_version * 48) (file w)))
                    (mem w)
             else mem w |}).
Proof.
  unfold read_colors, color_records, stored_colors.
  destruct (legacy_colors version build); intros Hn.
  - unfold bind. rewrite read_records_ok by done.
    destruct k; [|done].
    unfold on_colordata, modify, set_mem, map_colordata.
    cbn [file log mem colordata palnames Misc].
    by rewrite take_take, Nat.min_id.
  - destruct (s_version <? 4).
    + unfold bind at 1. rewrite read_records_ok by lia.
      unfold bind at 1.
      rewrite read_records_ok by (cbn [file]; rewrite length_drop; lia).
      cbn [file log mem].
      rewrite drop_drop, app_assoc, <- replicate_add, <- Nat.mul_add_distr_r.
      rewrite (Nat.add_comm (newpdTOTAL - oldpdTOTAL)).
      destruct k; [|done].
      unfold on_colordata, modify, set_mem, map_colordata.
      cbn [file log mem colordata palnames Misc].
      rewrite !take_drop_commute, !take_take, !Nat.min_l by lia.
      done.
    + unfold bind at 1. rewrite read_records_ok by lia.
      unfold bind at 1.
      rewrite read_records_ok by (cbn [file]; rewrite length_drop; lia).
      cbn [file log mem].
      rewrite read_records_ok by (cbn [file]; rewrite !length_drop; lia).
      cbn [file log mem].
      rewrite !drop_drop, !app_assoc, <- !replicate_add, <- !Nat.mul_add_distr_r.
      replace (newerpdTOTAL - newpdTOTAL + (newpdTOTAL - oldpdTOTAL) + oldpdTOTAL)%nat
        with (oldpdTOTAL + (newpdTOTAL - oldpdTOTAL) + (newerpdTOTAL - newpdTOTAL))%nat
        by lia.
      replace (oldpdTOTAL + (newpdTOTAL - oldpdTOTAL + (newerpdTOTAL - newpdTOTAL)))%nat
        with (oldpdTOTAL + (newpdTOTAL - oldpdTOTAL) + (newerpdTOTAL - newpdTOTAL))%nat
        by lia.
      destruct k; [|done].
      unfold map_colordata. cbn [file log mem colordata palnames Misc].
      rewrite ?drop_drop, ?take_drop_commute, ?take_take, ?Nat.min_l by lia.
      do 3 f_equal. rewrite <- Nat.mul_add_distr_r. done.
Qed.

Lemma read_colors_short version build s_version k w :
  (length (file w) < color_records version build s_version * 48)%nat ->
  exists w', read_colors version build s_version k w = (Return qe_invalid, w').
Proof.
  unfold read_colors, color_records.
  destruct (legacy_colors version build) eqn:El;
    destruct (s_version <? 4) eqn:E4; intros Hn; unfold bind at 1;
    (destruct (decide (oldpdTOTAL * 48 <= length (file w))%nat) as [H1|H1];
     [|destruct (read_records_short k 0 oldpdTOTAL w) as [w' ->]; [lia | eauto]]);
    try lia; rewrite read_records_ok by done.
  - unfold bind at 1.
    match goal with |- context [read_records k oldpdTOTAL ?n ?w1] =>
      destruct (read_records_short k oldpdTOTAL n w1) as [w' ->]; [|eauto]
    end.
    cbn [file]. rewrite length_drop. lia.
  - unfold bind at 1.
    match goal with |- context [read_records k oldpdTOTAL ?n ?w1] =>
      destruct (decide (n * 48 <= length (file w1))%nat) as [H2|H2];
      [|destruct (read_records_short k oldpdTOTAL n w1) as [w' ->]; [lia | eauto]]
    end.
    rewrite read_records_ok by done.
    cbn [file] in H2. rewrite length_drop in H2.
    apply read_records_short. cbn [file]. rewrite !length_drop. lia.
Qed.

(** *** The palette names *)

Lemma store_names_0 i data p : store_names 0 i data p = p.
Proof. done. Qed.

Lemma map_palnames_id (t : tables Others) : map_palnames (fun p => p) t = t.
Proof. by destruct t. Qed.

Lemma names_loop_ok k n i w :
  (n * PALNAMESIZE <= length (file w))%nat ->
  for_loop n i (fun i (_ : unit) =>
    temp_palname <- require (pfread PALNAMESIZE) ;;
    when k then on_palnames (<[i := temp_palname]>)) tt w =
  (Next tt,
   {| file := drop (n * PALNAMESIZE) (file w);
      log := replicate n (Call_fread PALNAMESIZE) ++ log w;
      mem := if k
             then map_palnames (store_names n i (take (n * PALNAMESIZE) (file w))) (mem w)
             else mem w |}).
Proof.
  revert i w. induction n as [|n IH]; intros i w Hn.
  - cbn [for_loop Nat.mul take drop replicate app]. unfold ret.
    destruct w as [f lg [c p m]], k; reflexivity.
  - cbn [for_loop]. unfold bind at 1. unfold bind at 1.
    rewrite require_pfread_ok by lia.
    destruct k.
    + unfold on_palnames, modify, set_mem. cbn [file log mem].
      rewrite IH by (cbn [file]; rewrite length_drop; lia).
      cbn [file log mem]. rewrite drop_drop, replicate_cons_app.
      unfold map_palnames. cbn [colordata palnames Misc store_names].
      rewrite take_take, Nat.min_l by lia.
      rewrite (take_drop_commute (file w)). done.
    + unfold ret. rewrite IH by (cbn [file]; rewrite length_drop; lia).
      cbn [file log mem]. by rewrite drop_drop, replicate_cons_app.
Qed.

Lemma names_loop_short k n i w :
  (length (file w) < n * PALNAMESIZE)%nat ->
  exists w',
    for_loop n i (fun i (_ : unit) =>
      temp_palname <- require (pfread PALNAMESIZE) ;;
      when k then on_palnames (<[i := temp_palname]>)) tt w =
    (Return qe_invalid, w').
Proof.
  revert i w. induction n as [|n IH]; intros i w Hn; [cbn in Hn; lia|].
  cbn [for_loop]. unfold bind at 1. unfold bind at 1.
  destruct (decide (PALNAMESIZE <= length (file w))%nat) as [H1|H1].
  - rewrite require_pfread_ok by done.
    destruct k.
    + unfold on_palnames, modify, set_mem. cbn [file log mem].
      apply IH. cbn [file]. rewrite length_drop. lia.
    + unfold ret. apply IH. cbn [file]. rewrite length_drop. lia.
  - rewrite require_pfread_short by lia. eauto.
Qed.

Lemma blank_loop_ok n i (z : list byte) w :
  for_loop n i (fun i (_ : unit) => on_palnames (<[i := z]>)) tt w =
  (Next tt,
   set_mem (map_palnames (iter_from (fun i p => <[i := z]> p) n i) (mem w)) w).
Proof.
  revert i w. induction n as [|n IH]; intros i w.
  - cbn [for_loop iter_from]. unfold ret, set_mem.
    rewrite map_palnames_id. by destruct w.
  - cbn [for_loop iter_from]. unfold bind, on_palnames, modify.
    rewrite IH. done.
Qed.

Lemma read_palnames_ok version build s_version k w :
  (name_records version build s_version * PALNAMESIZE <= length (file w))%nat ->
  read_palnames version build s_version k w =
  (Next tt,
   {| file := drop (name_records version build s_version * PALNAMESIZE) (file w);
      log := names_calls version build s_version k ++ log w;
      mem := if k
             then map_palnames
                    (stored_names version build s_version
                       (take (name_records version build s_version * PALNAMESIZE) (file w)))
                    (mem w)
             else mem w |}).
Proof.
  unfold read_palnames, name_records, stored_names, names_calls.
  destruct (legacy_names version build); intros Hn.
  - destruct k; [|by destruct w]. by destruct w.
  - unfold bind at 1. rewrite names_loop_ok by done.
    destruct k; [|done]. rewrite blank_loop_ok. done.
Qed.

Lemma read_palnames_short version build s_version k w :
  (length (file w) < name_records version build s_version * PALNAMESIZE)%nat ->
  exists w', read_palnames version build s_version k w = (Return qe_invalid, w').
Proof.
  unfold read_palnames, name_records.
  destruct (legacy_names version build); intros Hn; [cbn in Hn; lia|].
  unfold bind at 1.
  destruct (names_loop_short k (palnamestoread s_version) 0 w Hn) as [w' ->].
  eauto.
Qed.

(** *** The cycles *)

Lemma for_loop_pure {T} (g : nat -> T -> T) (body : nat -> T -> M T) bound n i s w :
  (forall i s w, (i < bound)%nat -> body i s w = (Next (g i s), w)) ->
  (i + n <= bound)%nat ->
  for_loop n i body s w = (Next (iter_from g n i s), w).
Proof.
  intros Hb. revert i s. induction n as [|n IH]; intros i s Hn; [done|].
  cbn [for_loop iter_from]. unfold bind. rewrite Hb by lia. apply IH. lia.
Qed.

Lemma iter_with_cycles (h : nat -> list (list palcycle) -> list (list palcycle)) n i tm :
  iter_from (fun i => with_cycles (h i)) n i tm = with_cycles (iter_from h n i) tm.
Proof.
  revert i tm. induction n as [|n IH]; intros i tm; [by destruct tm|].
  cbn [iter_from]. by rewrite IH.
Qed.

Lemma on_cycle_run i j f tm w :
  on_cycle i j f tm w = (Next (store_cycle i j f tm), w).
Proof. reflexivity. Qed.

Lemma on_cycle_ok i j f tm w :
  (i < 256)%nat ->
  on_cycle i j f tm w = (Next (with_cycles (alter (alter f j) i) tm), w).
Proof. intros Hi. rewrite on_cycle_run. unfold store_cycle. by case_decide. Qed.

Lemma clear_cycles_ok tm w :
  clear_cycles tm w = (Next (with_cycles cleared tm), w).
Proof.
  unfold clear_cycles, cleared. rewrite <- iter_with_cycles.
  apply (for_loop_pure _ _ 256); [|lia].
  intros i s w' Hi. rewrite <- iter_with_cycles.
  apply (for_loop_pure (fun j => with_cycles (clear_cell i j)) _ 3); [|lia].
  intros j s' w'' Hj. unfold bind. by rewrite !on_cycle_ok.
Qed.

Lemma read_field_ok set i tm b0 b1 b2 r lg m :
  read_field set i tm {| file := b0 :: b1 :: b2 :: r; log := lg; mem := m |} =
  (Next (store_field set i b0 b1 b2 tm),
   {| file := r; log := Call_getc :: Call_getc :: Call_getc :: lg; mem := m |}).
Proof.
  unfold read_field. cbn [for_loop]. unfold bind at 1 2.
  rewrite require_p_getc_ok, on_cycle_run.
  unfold bind at 1 2. rewrite require_p_getc_ok, on_cycle_run.
  unfold bind at 1 2. rewrite require_p_getc_ok, on_cycle_run.
  done.
Qed.

Lemma read_field_short set i tm w :
  (length (file w) < 3)%nat ->
  exists w', read_field set i tm w = (Return qe_invalid, w').
Proof.
  intros Hn. destruct w as [f lg m]. cbn [file] in Hn.
  unfold read_field. cbn [for_loop].
  destruct f as [|b0 f].
  { unfold bind at 1 2. rewrite require_p_getc_short. eauto. }
  unfold bind at 1 2. rewrite require_p_getc_ok, on_cycle_run.
  destruct f as [|b1 f].
  { unfold bind at 1 2. rewrite require_p_getc_short. eauto. }
  unfold bind at 1 2. rewrite require_p_getc_ok, on_cycle_run.
  destruct f as [|b2 f]; [|cbn [length] in Hn; lia].
  unfold bind at 1 2. rewrite require_p_getc_short. eauto.
Qed.

Lemma read_row_ok i tm f0 f1 f2 c0 c1 c2 s0 s1 s2 r lg m :
  read_row i tm
    {| file := f0 :: f1 :: f2 :: c0 :: c1 :: c2 :: s0 :: s1 :: s2 :: r;
       log := lg; mem := m |} =
  (Next (store_field set_speed i s0 s1 s2
           (store_field set_count i c0 c1 c2
              (store_field set_first i f0 f1 f2 tm))),
   {| file := r; log := replicate 9 Call_getc ++ lg; mem := m |}).
Proof.
  unfold read_row, bind. by rewrite !read_field_ok.
Qed.

Lemma read_row_short i tm w :
  (length (file w) < 9)%nat ->
  exists w', read_row i tm w = (Return qe_invalid, w').
Proof.
  intros Hn. destruct w as [f lg m]. cbn [file] in Hn. unfold read_row.
  destruct f as [|f0 [|f1 [|f2 f]]];
    try (unfold bind at 1;
         edestruct (read_field_short set_first i tm) as [w' ->];
         [cbn [file length]; lia | eauto]).
  unfold bind at 1. rewrite read_field_ok.
  destruct f as [|c0 [|c1 [|c2 f]]];
    try (unfold bind at 1;
         edestruct (read_field_short set_count i) as [w' ->];
         [cbn [file length]; lia | eauto]).
  unfold bind at 1. rewrite read_field_ok.
  apply read_field_short. cbn [file length] in *. lia.
Qed.

(** The loop of line 180 runs as far as the count says: nothing bounds
    [i] by the 256 rows of the table. *)
Lemma rows_loop_ok n i tm w :
  (9 * n <= length (file w))%nat ->
  for_loop n i read_row tm w =
  (Next (store_rows n i (take (9 * n) (file w)) tm),
   {| file := drop (9 * n) (file w);
      log := replicate (9 * n) Call_getc ++ log w;
      mem := mem w |}).
Proof.
  revert i tm w. induction n as [|n IH]; intros i tm w Hn.
  - cbn [for_loop Nat.mul take drop replicate app store_rows]. unfold ret.
    by destruct w.
  - destruct w as [f lg m]. cbn [file log mem] in *.
    destruct f as [|f0 [|f1 [|f2 [|c0 [|c1 [|c2 [|s0 [|s1 [|s2 r]]]]]]]]];
      cbn [length] in Hn; try lia.
    cbn [for_loop]. unfold bind at 1. rewrite read_row_ok.
    rewrite IH by (cbn [file]; lia). cbn [file log mem].
    replace (9 * S n)%nat with (9 + 9 * n)%nat by lia.
    cbn [Nat.add take drop store_rows].
    do 2 f_equal.
    rewrite app_assoc, <- replicate_add. do 2 f_equal. lia.
Qed.

Lemma rows_loop_short n i tm w :
  (length (file w) < 9 * n)%nat ->
  exists w', for_loop n i read_row tm w = (Return qe_invalid, w').
Proof.
  revert i tm w. induction n as [|n IH]; intros i tm w Hn; [cbn in Hn; lia|].
  cbn [for_loop]. unfold bind at 1.
  destruct (decide (9 <= length (file w))%nat) as [H9|H9].
  - destruct w as [f lg m]. cbn [file] in *.
    destruct f as [|f0 [|f1 [|f2 [|c0 [|c1 [|c2 [|s0 [|s1 [|s2 r]]]]]]]]];
      cbn [length] in H9; try lia.
    rewrite read_row_ok. apply IH.
    cbn [file length] in *. lia.
  - destruct (read_row_short i tm w) as [w' ->]; [lia | eauto].
Qed.

Lemma read_cycles_ok tm lo hi rest lg m :
  (9 * Z.to_nat (word16 lo hi) <= length rest)%nat ->
  read_cycles tm {| file := lo :: hi :: rest; log := lg; mem := m |} =
  (Next (store_rows (Z.to_nat (word16 lo hi)) 0
           (take (9 * Z.to_nat (word16 lo hi)) rest) (with_cycles cleared tm)),
   {| file := drop (9 * Z.to_nat (word16 lo hi)) rest;
      log := replicate (9 * Z.to_nat (word16 lo hi)) Call_getc ++ Call_igetw :: lg;
      mem := m |}).
Proof.
  intros H9. unfold read_cycles. unfold bind at 1. rewrite clear_cycles_ok.
  unfold bind at 1. rewrite require_p_igetw_ok.
  by rewrite rows_loop_ok by (cbn [file]; lia).
Qed.

Lemma read_cycles_Next tm w tm' w' :
  read_cycles tm w = (Next tm', w') ->
  exists lo hi rest,
    file w = lo :: hi :: rest /\
    (9 * Z.to_nat (word16 lo hi) <= length rest)%nat.
Proof.
  unfold read_cycles. unfold bind at 1. rewrite clear_cycles_ok.
  unfold bind at 1. destruct w as [f lg m].
  destruct f as [|lo [|hi rest]];
    try (rewrite require_p_igetw_short by (cbn [file length]; lia); done).
  rewrite require_p_igetw_ok. intros Hrun.
  exists lo, hi, rest. split; [done|].
  destruct (decide (9 * Z.to_nat (word16 lo hi) <= length rest)%nat)
    as [H9|H9]; [done|].
  edestruct (rows_loop_short (Z.to_nat (word16 lo hi)) 0) as [w1 Hw1];
    [|rewrite Hw1 in Hrun; done]. cbn [file]. lia.
Qed.

(** *** The cycle table row by row *)








Lemma length_load_row data (q : nat) row : length (load_row data q row) = length row.
Proof. unfold load_row. by rewrite !length_alter. Qed.

Lemma length_clear_row row : length (clear_row row) = length row.
Proof. unfold clear_row. cbn [iter_from]. by rewrite !length_alter. Qed.






(** *** The working copy: the table and what lies behind it *)

Lemma alter_past_end {A} (g : A -> A) (i : nat) (l : list A) :
  (length l <= i)%nat -> alter g i l = l.
Proof.
  intros Hi. apply list_eq. intros r. rewrite list_lookup_alter.
  case_decide as E; [|done]. subst r. by rewrite lookup_ge_None_2.
Qed.


Lemma behind_store_cycle i j g (tm : miscQdata Others) :
  behind (store_cycle i j g tm) =
    if decide (i < 256)%nat then behind tm
    else alter g (3 * (i - 256) + j)%nat (behind tm).
Proof.
  unfold store_cycle.
  repeat case_decide; cbn [behind]; try done. by rewrite alter_past_end by lia.
Qed.

Lemma others_store_cycle i j g (tm : miscQdata Others) :
  others (store_cycle i j g tm) = others tm.
Proof. unfold store_cycle. by repeat case_decide. Qed.




Lemma others_store_field set i b0 b1 b2 (tm : miscQdata Others) :
  others (store_field set i b0 b1 b2 tm) = others tm.
Proof. unfold store_field. by rewrite 3 others_store_cycle. Qed.


Lemma others_store_rows n i data (tm : miscQdata Others) :
  others (store_rows n i data tm) = others tm.
Proof.
  revert i data tm. induction n as [|n IH]; intros i data tm; [done|].
  destruct data as [|f0 [|f1 [|f2 [|c0 [|c1 [|c2 [|s0 [|s1 [|s2 rest]]]]]]]]];
    try done.
  cbn [store_rows]. by rewrite IH, 3 others_store_field.
Qed.





(** Up to 256 rows nothing behind the table is stored to. *)
Lemma behind_store_rows_within n i data (tm : miscQdata Others) :
  (i + n <= 256)%nat -> behind (store_rows n i data tm) = behind tm.
Proof.
  revert i data tm. induction n as [|n IH]; intros i data tm Hn; [done|].
  destruct data as [|f0 [|f1 [|f2 [|c0 [|c1 [|c2 [|s0 [|s1 [|s2 rest]]]]]]]]];
    try done.
  cbn [store_rows]. rewrite IH by lia. unfold store_field.
  rewrite 9 behind_store_cycle. destruct (decide (i < 256)%nat); [done | lia].
Qed.

(** *** The name table slot by slot *)



Lemma length_blank_from n i (z : list byte) p :
  length (iter_from (fun i p => <[i := z]> p) n i p) = length p.
Proof.
  revert i p. induction n as [|n IH]; intros i p; [done|].
  cbn [iter_from]. by rewrite IH, length_insert.
Qed.



(** *** What a phase that falls through has read *)

Lemma read_header_Next version w sv w' :
  read_header version w = (Next sv, w') ->
  (header_size version <= length (file w))%nat /\
  sv = sub_version version (file w) /\
  w' = {| file := drop (header_size version) (file w);
          log := (if 0x192 <? version then rev header_calls else []) ++ log w;
          mem := mem w |}.
Proof.
  unfold header_size, sub_version. destruct (0x192 <? version) eqn:E.
  - apply Z.ltb_lt in E. destruct (decide (8 <= length (file w))%nat) as [H8|H8].
    + destruct w as [f lg m]. cbn [file log mem] in *.
      destruct f as [|b0 [|b1 [|b2 [|b3 [|b4 [|b5 [|b6 [|b7 r]]]]]]]];
        cbn [length] in H8; try lia.
      rewrite read_header_ok by done. intros [= <- <-].
      split; [cbn [length]; lia | done].
    + destruct (read_header_short version w) as (f' & ->);
        [done | lia | done].
  - apply Z.ltb_ge in E. rewrite read_header_old by done.
    intros [= <- <-]. split; [lia|]. by destruct w.
Qed.

Lemma read_colors_Next version build s_version k w w' :
  read_colors version build s_version k w = (Next tt, w') ->
  (color_records version build s_version * 48 <= length (file w))%nat /\
  w' = {| file := drop (color_records version build s_version * 48) (file w);
          log := replicate (color_records version build s_version) (Call_fread 48) ++ log w;
          mem := if k
                 then map_colordata
                        (stored_colors version build s_version
                           (take (color_records version build s_version * 48) (file w)))
                        (mem w)
                 else mem w |}.
Proof.
  destruct (decide (color_records version build s_version * 48 <= length (file w))%nat)
    as [Hn|Hn].
  - rewrite read_colors_ok by done. by intros [= <-].
  - destruct (read_colors_short version build s_version k w) as [w1 ->]; [lia|done].
Qed.

Lemma read_palnames_Next version build s_version k w w' :
  read_palnames version build s_version k w = (Next tt, w') ->
  (name_records version build s_version * PALNAMESIZE <= length (file w))%nat /\
  w' = {| file := drop (name_records version build s_version * PALNAMESIZE) (file w);
          log := names_calls version build s_version k ++ log w;
          mem := if k
                 then map_palnames
                        (stored_names version build s_version
                           (take (name_records version build s_version * PALNAMESIZE)
                              (file w)))
                        (mem w)
                 else mem w |}.
Proof.
  destruct (decide (name_records version build s_version * PALNAMESIZE
                    <= length (file w))%nat) as [Hn|Hn].
  - rewrite read_palnames_ok by done. by intros [= <-].
  - destruct (read_palnames_short version build s_version k w) as [w1 ->]; [lia|done].
Qed.

(** *** The whole call *)

Lemma readcolordata_cases f t version build k :
  readcolordata f t version build k =
  let '(r, w) := before_commit version build k {| file := f; log := []; mem := t |} in
  {| ended := match r with
              | Next _ => Returned qe_OK
              | Return c => Returned c
              end;
     dest := match r with
             | Next o => committed k o (mem w)
             | _ => mem w
             end;
     trace := rev (log w);
     unread := file w |}.
Proof.
  unfold readcolordata. rewrite body_split. unfold bind at 1.
  destruct (before_commit version build k _) as [[o|c] w]; [|done..].
  unfold bind, commit, committed, leave, ret, put_Misc, modify, set_mem.
  destruct o as [tm|], k; reflexivity.
Qed.

Lemma rev_names_calls version build s_version k :
  rev (names_calls version build s_version k) = names_calls version build s_version k.
Proof.
  unfold names_calls. destruct (legacy_names version build).
  - by destruct k.
  - induction (palnamestoread s_version) as [|n IH]; [done|].
    cbn [replicate rev]. rewrite IH. change [Call_fread PALNAMESIZE]
      with (replicate 1 (Call_fread PALNAMESIZE)).
    rewrite <- replicate_add. by rewrite Nat.add_1_r.
Qed.

Lemma rev_replicate {A} n (x : A) : rev (replicate n x) = replicate n x.
Proof.
  induction n as [|n IH]; [done|].
  cbn [replicate rev]. rewrite IH. change [x] with (replicate 1 x).
  rewrite <- replicate_add. by rewrite Nat.add_1_r.
Qed.

Lemma before_commit_Next version build k w o w' :
  before_commit version build k w = (Next o, w') ->
  (header_size version <= length (file w))%nat /\
  (color_records version build (sub_version version (file w)) * 48
     <= length (after_header version (file w)))%nat /\
  (name_records version build (sub_version version (file w)) * PALNAMESIZE
     <= length (after_colors version build (file w)))%nat /\
  mem w' =
    (if k
     then map_palnames
            (stored_names version build (sub_version version (file w))
               (name_bytes version build (file w)))
            (map_colordata
               (stored_colors version build (sub_version version (file w))
                  (color_bytes version build (file w)))
               (mem w))
     else mem w) /\
  if 0x192 <? version then
    exists lo hi rest,
      after_names version build (file w) = lo :: hi :: rest /\
      (9 * Z.to_nat (word16 lo hi) <= length rest)%nat /\
      o = Some (store_rows (Z.to_nat (word16 lo hi)) 0
                  (take (9 * Z.to_nat (word16 lo hi)) rest)
                  (with_cycles cleared (Misc (mem w)))) /\
      file w' = drop (9 * Z.to_nat (word16 lo hi)) rest /\
      rev (log w') =
        rev (log w) ++ table_calls version build k (file w) ++
        Call_igetw :: replicate (9 * Z.to_nat (word16 lo hi)) Call_getc
  else
    o = None /\
    file w' = after_names version build (file w) /\
    rev (log w') = rev (log w) ++ table_calls version build k (file w).
Proof.
  unfold before_commit. unfold bind at 1. unfold gets. cbv beta iota.
  unfold bind at 1.
  destruct (read_header version w) as [[sv|c] w1] eqn:E1; [|done..].
  apply read_header_Next in E1 as (H1 & -> & ->).
  unfold after_the_header. unfold bind at 1.
  destruct (read_colors _ _ _ _ _) as [[[]|c] w2] eqn:E2; [|done..].
  apply read_colors_Next in E2 as (H2 & ->). cbn [file log mem] in *.
  unfold bind at 1.
  destruct (read_palnames _ _ _ _ _) as [[[]|c] w3] eqn:E3; [|done..].
  apply read_palnames_Next in E3 as (H3 & ->). cbn [file log mem] in *.
  fold (after_header version (file w)) in *.
  fold (after_colors version build (file w)) in *.
  fold (color_bytes version build (file w)) in *.
  fold (after_names version build (file w)) in *.
  fold (name_bytes version build (file w)) in *.
  unfold table_calls.
  destruct (0x192 <? version) eqn:E.
  - unfold bind at 1.
    destruct (read_cycles _ _) as [[tm|c] w4] eqn:E4; [|done..].
    intros [= <- <-].
    pose proof (read_cycles_Next _ _ _ _ E4) as (lo & hi & rest & Hf & H9).
    cbn [file] in Hf. rewrite Hf in E4.
    rewrite read_cycles_ok in E4 by done. injection E4 as <- <-.
    repeat split; try done.
    { by destruct k. }
    exists lo, hi, rest. repeat split; try done.
    cbn [log]. rewrite !rev_app_distr. cbn [rev].
    rewrite !rev_app_distr, !rev_replicate, rev_names_calls.
    cbn [rev]. unfold header_calls. rewrite <- !app_assoc. cbn [app].
    do 7 f_equal; lia.
  - intros [= <- <-]. repeat split; try done.
    { by destruct k. }
    cbn [log]. rewrite !rev_app_distr, rev_replicate, rev_names_calls.
    cbn [app]. by rewrite <- !app_assoc.
Qed.

Lemma before_commit_header_short version build k f t :
  0x192 < version -> (length f < 8)%nat ->
  exists f',
    before_commit version build k {| file := f; log := []; mem := t |} =
    (Return qe_invalid,
     {| file := f'; log := rev (header_attempt (length f)); mem := t |}).
Proof.
  intros Hv Hn. unfold before_commit.
  unfold bind at 1. unfold gets. cbv beta iota. unfold bind at 1.
  destruct (read_header_short version {| file := f; log := []; mem := t |})
    as (f' & ->); [done | done |].
  cbn [file log mem]. rewrite app_nil_r. by exists f'.
Qed.

Lemma before_commit_header_ok version build k f t :
  0x192 < version -> (8 <= length f)%nat ->
  exists new,
    log (before_commit version build k {| file := f; log := []; mem := t |}).2 =
    new ++ rev header_calls.
Proof.
  intros Hv Hn. unfold before_commit.
  unfold bind at 1. unfold gets. cbv beta iota. unfold bind at 1.
  destruct f as [|b0 [|b1 [|b2 [|b3 [|b4 [|b5 [|b6 [|b7 r]]]]]]]];
    cbn [length] in Hn; try lia.
  rewrite read_header_ok by done.
  destruct (respects_after_the_header k (fun _ => True) version build
              (word16 b0 b1) (Misc t) I I I (fun _ => conj I I)
              {| file := r; log := [Call_igetl; Call_igetw; Call_igetw]; mem := t |})
    as [(_ & _ & new & Hlog & _) _].
  by exists new.
Qed.

Lemma legacy_colors_true version build :
  legacy_colors version build = true <->
  version < 0x192 \/ (version = 0x192 /\ build < 73).
Proof. unfold legacy_colors. lia. Qed.

Lemma legacy_names_true version build :
  legacy_names version build = true <->
  version < 0x192 \/ (version = 0x192 /\ build < 76).
Proof. unfold legacy_names. lia. Qed.


Lemma ended_ok f t version build k :
  ended (readcolordata f t version build k) = Returned qe_OK ->
  exists o w,
    before_commit version build k {| file := f; log := []; mem := t |} = (Next o, w) /\
    readcolordata f t version build k =
      {| ended := Returned qe_OK; dest := committed k o (mem w);
         trace := rev (log w); unread := file w |}.
Proof.
  rewrite readcolordata_cases.
  destruct (respects_before_commit k (fun _ => True) version build
              I I I (fun _ => conj I (conj I I))
              {| file := f; log := []; mem := t |}) as [_ Hne].
  destruct (before_commit version build k _) as [[o|c] w]; cbn in *.
  - intros _. by exists o, w.
  - by intros [= ->].
Qed.

Lemma before_commit_old_ok version build k f t :
  version <= 0x192 ->
  (color_records version build 0 * 48 <= length f)%nat ->
  (name_records version build 0 * PALNAMESIZE
     <= length (drop (color_records version build 0 * 48) f))%nat ->
  before_commit version build k {| file := f; log := []; mem := t |} =
  (Next None,
   {| file := drop (name_records version build 0 * PALNAMESIZE)
                (drop (color_records version build 0 * 48) f);
      log := names_calls version build 0 k ++
             replicate (color_records version build 0) (Call_fread 48) ++ [];
      mem := if k
             then map_palnames
                    (stored_names version build 0
                       (take (name_records version build 0 * PALNAMESIZE)
                          (drop (color_records version build 0 * 48) f)))
                    (map_colordata
                       (stored_colors version build 0
                          (take (color_records version build 0 * 48) f)) t)
             else t |}).
Proof.
  intros Hv Hc Hn. unfold before_commit, after_the_header.
  unfold bind at 1. unfold gets. cbv beta iota. unfold bind at 1.
  rewrite read_header_old by done.
  unfold bind at 1. rewrite read_colors_ok by done.
  unfold bind at 1. rewrite read_palnames_ok by done.
  cbn [file log mem].
  assert ((0x192 <? version) = false) as -> by lia.
  by destruct k.
Qed.

Lemma length_relocate_oldest c : length (relocate_oldest c) = length c.
Proof.
  unfold relocate_oldest. cbv zeta.
  by repeat (rewrite length_memcpy || rewrite length_memset0).
Qed.

(** *** The oldest relocation, byte by byte *)

Lemma relocate_oldest_lookup (c : list byte) (r o : nat) :
  (oldpoSPRITE + 30 <= newerpoSPRITE)%nat ->
  ((newerpoSPRITE + 30) * 48 <= length c)%nat ->
  (o < 48)%nat -> (r * 48 + o < length c)%nat ->
  relocate_oldest c !! (r * 48 + o)%nat =
    if decide (oldpoSPRITE <= r < newerpoSPRITE)%nat then Some x00
    else if decide (r = newerpoSPRITE + 8)%nat then Some x00
    else if decide (newerpoSPRITE + 9 <= r <= newerpoSPRITE + 11)%nat
         then c !! ((oldpoSPRITE + (r - newerpoSPRITE) - 1) * 48 + o)%nat
    else if decide (newerpoSPRITE <= r < newerpoSPRITE + 30)%nat
         then c !! ((oldpoSPRITE + (r - newerpoSPRITE)) * 48 + o)%nat
    else c !! (r * 48 + o)%nat.
Proof.
  intros Hgap Hlen Ho Hr. unfold relocate_oldest. cbv zeta.
  repeat case_decide;
    repeat (first [ rewrite lookup_memset0
                  | rewrite lookup_memcpy
                      by (repeat (rewrite length_memcpy || rewrite length_memset0); lia) ];
            repeat (rewrite length_memcpy || rewrite length_memset0);
            case_decide; try lia);
    try done; f_equal; lia.
Qed.

(** *** A stream that holds the whole section *)

Lemma read_header_run version w :
  (header_size version <= length (file w))%nat ->
  read_header version w =
  (Next (sub_version version (file w)),
   {| file := drop (header_size version) (file w);
      log := (if 0x192 <? version then rev header_calls else []) ++ log w;
      mem := mem w |}).
Proof.
  unfold header_size, sub_version. destruct (0x192 <? version) eqn:E; intros Hn.
  - apply Z.ltb_lt in E. destruct w as [f lg m]. cbn [file log mem] in *.
    destruct f as [|b0 [|b1 [|b2 [|b3 [|b4 [|b5 [|b6 [|b7 r]]]]]]]];
      cbn [length] in Hn; try lia.
    by rewrite read_header_ok.
  - apply Z.ltb_ge in E. rewrite read_header_old by done. by destruct w.
Qed.

Lemma length_after_header version f :
  length (after_header version f) = (length f - header_size version)%nat.
Proof. unfold after_header. by rewrite length_drop. Qed.

Lemma length_after_colors version build f :
  length (after_colors version build f) =
  (length f - header_size version -
   color_records version build (sub_version version f) * 48)%nat.
Proof. unfold after_colors. by rewrite length_drop, length_after_header. Qed.

Lemma length_after_names version build f :
  length (after_names version build f) =
  (length f - header_size version -
   color_records version build (sub_version version f) * 48 -
   name_records version build (sub_version version f) * PALNAMESIZE)%nat.
Proof. unfold after_names. by rewrite length_drop, length_after_colors. Qed.

Lemma before_commit_run version build k w :
  (section_size version build (file w) <= length (file w))%nat ->
  exists o w', before_commit version build k w = (Next o, w').
Proof.
  unfold section_size, cycles_size, declared_rows. intros Hsize.
  pose proof (length_after_names version build (file w)) as Hlen.
  unfold before_commit, after_the_header.
  unfold bind at 1. unfold gets. cbv beta iota. unfold bind at 1.
  rewrite read_header_run by lia.
  unfold bind at 1. rewrite read_colors_ok by (cbn [file]; rewrite length_drop; lia).
  unfold bind at 1.
  rewrite read_palnames_ok by (cbn [file]; rewrite !length_drop; lia).
  cbn [file log mem].
  fold (after_header version (file w)).
  fold (after_colors version build (file w)).
  fold (after_names version build (file w)).
  destruct (0x192 <? version); [|by eexists _, _].
  unfold cycle_rows in *.
  destruct (after_names version build (file w)) as [|lo [|hi rest]];
    cbn [length] in Hlen; try lia.
  unfold bind at 1.
  rewrite read_cycles_ok by lia. by eexists _, _.
Qed.

Lemma ended_ok_iff f t version build k :
  ended (readcolordata f t version build k) = Returned qe_OK <->
  (section_size version build f <= length f)%nat.
Proof.
  split.
  - intros Hok. destruct (ended_ok _ _ _ _ _ Hok) as (o & w & Hrun & _).
    apply before_commit_Next in Hrun as (H1 & H2 & H3 & _ & Hrest).
    cbn [file] in *.
    rewrite length_after_header in H2. rewrite length_after_colors in H3.
    pose proof (length_after_names version build f) as Hlen.
    unfold section_size, cycles_size, declared_rows.
    destruct (0x192 <? version).
    + destruct Hrest as (lo & hi & rest & Hf & H9 & _).
      rewrite Hf in *. cbn [cycle_rows length] in *. lia.
    + lia.
  - intros Hsize. rewrite readcolordata_cases.
    destruct (before_commit_run version build k
                {| file := f; log := []; mem := t |} Hsize) as (o & w & ->).
    done.
Qed.

(** ** The properties of the decoder *)


(** C2: with [keepdata] false a call leaves the colour table, the name table
    and [Misc] exactly as they were, however it ends. *)
Theorem dry_run_leaves_destinations f t version build :
  dest (readcolordata f t version build false) = t.
Proof.
  rewrite readcolordata_cases.
  destruct (respects_before_commit false (fun _ => True) version build
              I I I (fun _ => conj I (conj I I))
              {| file := f; log := []; mem := t |}) as [(_ & Hk & _) _].
  destruct (before_commit version build false _) as [[o|c] w]; cbn in *.
  - unfold committed. destruct o; by apply Hk.
  - by apply Hk.
Qed.

(** C3 (as amended): for [version <= 0x192] a call makes no header read and
    no cycle read (every call is a block read or [init_palnames]) and leaves
    [Misc] alone; when moreover [version < 0x192], or [version = 0x192] and
    [build < 76], a call with [keepdata] true that returns [0] has read the
    colour records only and then reset the names through [init_palnames]. *)
Theorem old_format_calls f t version build k :
  version <= 0x192 ->
  Forall block_call (trace (readcolordata f t version build k)) /\
  Misc (dest (readcolordata f t version build k)) = Misc t /\
  (version < 0x192 \/ (version = 0x192 /\ build < 76) ->
   k = true ->
   ended (readcolordata f t version build k) = Returned qe_OK ->
   trace (readcolordata f t version build k) =
     replicate (color_records version build 0) (Call_fread 48) ++ [Call_init_palnames] /\
   palnames (dest (readcolordata f t version build k)) = init_palnames (palnames t)).
Proof.
  intros Hv. rewrite readcolordata_cases.
  destruct (respects_before_commit k block_call version build
              I I I (fun H => ltac:(lia))
              {| file := f; log := []; mem := t |}) as [(HM & _ & new & Hlog & Hnew) Hne].
  pose proof (before_commit_Next version build k {| file := f; log := []; mem := t |})
    as Hnext.
  destruct (before_commit version build k _) as [[o|c] w];
    cbn [ended dest trace fst snd] in *.
  - specialize (Hnext o w eq_refl) as (_ & _ & _ & Hmem & Hrest).
    assert ((0x192 <? version) = false) as E by lia.
    rewrite E in Hrest. destruct Hrest as (-> & _ & Htrace).
    cbn [committed file log mem rev app] in *.
    split; [|split; [done|]].
    + rewrite Hlog, app_nil_r. by apply Forall_rev.
    + intros Hlegacy -> _. apply legacy_names_true in Hlegacy.
      rewrite Htrace, Hmem. unfold table_calls, names_calls, sub_version.
      rewrite E, Hlegacy. split; [done|].
      unfold stored_names. by rewrite Hlegacy.
  - split; [|split; [done|]].
    + rewrite Hlog, app_nil_r. by apply Forall_rev.
    + by intros _ _ [= ->].
Qed.

(** C4: for [version > 0x192] the three header fields are read before
    anything else; a stream too short for one of them makes the call stop at
    that field and return [qe_invalid] with every destination as it was. *)
Theorem header_read_first f t version build k :
  0x192 < version ->
  (exists rest, trace (readcolordata f t version build k) = Call_igetw :: rest) /\
  ((8 <= length f)%nat ->
   exists rest, trace (readcolordata f t version build k) = header_calls ++ rest) /\
  ((length f < 8)%nat ->
   ended (readcolordata f t version build k) = Returned qe_invalid /\
   dest (readcolordata f t version build k) = t /\
   trace (readcolordata f t version build k) = header_attempt (length f)).
Proof.
  intros Hv.
  assert ((8 <= length f)%nat ->
          exists rest, trace (readcolordata f t version build k) = header_calls ++ rest)
    as Hlong.
  { intros Hn. rewrite readcolordata_cases.
    destruct (before_commit_header_ok version build k f t Hv Hn) as [new Hlog].
    destruct (before_commit _ _ _ _) as [x w]. cbn [trace snd] in *.
    exists (rev new). rewrite Hlog, rev_app_distr. done. }
  assert ((length f < 8)%nat ->
          ended (readcolordata f t version build k) = Returned qe_invalid /\
          dest (readcolordata f t version build k) = t /\
          trace (readcolordata f t version build k) = header_attempt (length f))
    as Hshort.
  { intros Hn. rewrite readcolordata_cases.
    destruct (before_commit_header_short version build k f t Hv Hn) as [f' ->].
    cbn [ended dest trace file log mem]. by rewrite rev_involutive. }
  split; [|done].
  destruct (decide (8 <= length f)%nat) as [H8|H8].
  - destruct (Hlong H8) as [rest ->]. by eexists.
  - destruct Hshort as (_ & _ & ->); [lia|].
    unfold header_attempt, header_calls.
    destruct (length f <? 2)%nat; [by eexists|].
    destruct (length f <? 4)%nat; by eexists.
Qed.

(** C5: at [version = 0x192] the colour branch turns at build 73 and the name
    branch at build 76.  On a stream that holds the records of its branch a
    call returns [0]; it has read [oldpdTOTAL] records and relocated them
    when [build < 73] (so at 72) and has read the extended records and done
    the smaller relocation from build 73 on; it has reset the names through
    [init_palnames] when [build < 76] (so at 75) and has read
    [OLDMAXLEVELS] names and blanked the slots behind them from build 76
    on.  The stores are those of a call with [keepdata] true. *)
Theorem build_thresholds f t build k :
  ((if (build <? 73)%Z then oldpdTOTAL else oldpdTOTAL + (newpdTOTAL - oldpdTOTAL)) * 48 +
   (if (build <? 76)%Z then 0 else OLDMAXLEVELS * PALNAMESIZE) <= length f)%nat ->
  ended (readcolordata f t 0x192 build k) = Returned qe_OK /\
  trace (readcolordata f t 0x192 build k) =
    replicate (if build <? 73 then oldpdTOTAL
               else (oldpdTOTAL + (newpdTOTAL - oldpdTOTAL))%nat) (Call_fread 48) ++
    (if build <? 76 then (if k then [Call_init_palnames] else [])
     else replicate OLDMAXLEVELS (Call_fread PALNAMESIZE)) /\
  colordata (dest (readcolordata f t 0x192 build k)) =
    (if k then
       if build <? 73
       then relocate_oldest (blit 0 (take (oldpdTOTAL * 48) f) (colordata t))
       else relocate_old
              (blit (oldpdTOTAL * 48)
                 (take ((newpdTOTAL - oldpdTOTAL) * 48) (drop (oldpdTOTAL * 48) f))
                 (blit 0 (take (oldpdTOTAL * 48) f) (colordata t)))
     else colordata t) /\
  palnames (dest (readcolordata f t 0x192 build k)) =
    (if k then
       if build <? 76
       then init_palnames (palnames t)
       else iter_from (fun i p => <[i := replicate PALNAMESIZE x00]> p)
              (MAXLEVELS - OLDMAXLEVELS) OLDMAXLEVELS
              (store_names OLDMAXLEVELS 0
                 (take (OLDMAXLEVELS * PALNAMESIZE)
                    (drop ((oldpdTOTAL + (newpdTOTAL - oldpdTOTAL)) * 48) f))
                 (palnames t))
     else palnames t).
Proof.
  intros Hlen.
  assert (ended (readcolordata f t 0x192 build k) = Returned qe_OK) as Hok.
  { apply ended_ok_iff.
    unfold section_size, cycles_size, color_records, name_records.
    change (sub_version 0x192 f) with 0.
    change (header_size 0x192) with 0%nat.
    change (legacy_colors 0x192 build) with (build <? 73).
    change (legacy_names 0x192 build) with (build <? 76).
    change (palnamestoread 0) with OLDMAXLEVELS.
    change (0x192 <? 0x192) with false. change (0 <? 4) with true.
    cbv iota. destruct (build <? 73), (build <? 76); lia. }
  split; [exact Hok|].
  destruct (ended_ok _ _ _ _ _ Hok) as (o & w & Hrun & ->).
  apply before_commit_Next in Hrun as (_ & H2 & _ & Hmem & Hrest).
  change (0x192 <? 0x192) with false in Hrest. cbv iota in Hrest.
  destruct Hrest as (-> & _ & Htrace).
  cbn [trace dest committed file log mem rev app] in *. rewrite Htrace, Hmem.
  unfold table_calls, names_calls, color_bytes, name_bytes, after_colors,
    after_header, stored_colors, stored_names, color_records, name_records in *.
  change (sub_version 0x192 f) with 0 in *.
  change (header_size 0x192) with 0%nat in *.
  change (legacy_colors 0x192 build) with (build <? 73) in *.
  change (legacy_names 0x192 build) with (build <? 76) in *.
  change (palnamestoread 0) with OLDMAXLEVELS.
  change (0x192 <? 0x192) with false. change (0 <? 4) with true in *.
  cbv iota in *. cbn [drop app] in *.
  split; [done|].
  destruct k; [|done]. cbn [colordata palnames map_palnames map_colordata].
  split.
  - destruct (build <? 73).
    + by rewrite take_take, Nat.min_id.
    + rewrite take_drop_commute, !take_take, !Nat.min_l by lia.
      by rewrite <- take_drop_commute.
  - destruct (build <? 76) eqn:E76; [done|].
    assert ((build <? 73) = false) as -> by lia. done.
Qed.

(** C6 (as amended): when [version < 0x192], or [version = 0x192] and
    [build < 73], a call with [keepdata] true on a stream holding the
    [oldpdTOTAL] base records returns [0] having read those records and
    nothing else, and the colour table is the table after those reads with
    the thirty sprite records moved from [oldpoSPRITE] to [newerpoSPRITE],
    the records from [oldpoSPRITE] up to [newerpoSPRITE] zeroed, the moved
    records 8, 9 and 10 each one slot further (so 11 is overwritten by 10,
    10 by 9 and 9 by 8) and slot 8 zeroed. *)
Theorem legacy_relocation f t version build :
  version < 0x192 \/ (version = 0x192 /\ build < 73) ->
  (oldpdTOTAL * 48 <= length f)%nat ->
  (oldpoSPRITE + 30 <= newerpoSPRITE)%nat ->
  ((newerpoSPRITE + 30) * 48 <= length (colordata t))%nat ->
  ended (readcolordata f t version build true) = Returned qe_OK /\
  unread (readcolordata f t version build true) = drop (oldpdTOTAL * 48) f /\
  trace (readcolordata f t version build true) =
    replicate oldpdTOTAL (Call_fread 48) ++ [Call_init_palnames] /\
  colordata (dest (readcolordata f t version build true)) =
    relocate_oldest (blit 0 (take (oldpdTOTAL * 48) f) (colordata t)) /\
  (forall q o, (q < 30)%nat -> (o < 48)%nat ->
     colordata (dest (readcolordata f t version build true))
       !! ((newerpoSPRITE + q) * 48 + o)%nat =
     if decide (q = 8%nat) then Some x00
     else if decide (9 <= q <= 11)%nat
          then blit 0 (take (oldpdTOTAL * 48) f) (colordata t)
                 !! ((oldpoSPRITE + q - 1) * 48 + o)%nat
          else blit 0 (take (oldpdTOTAL * 48) f) (colordata t)
                 !! ((oldpoSPRITE + q) * 48 + o)%nat) /\
  (forall p o, (oldpoSPRITE <= p < newerpoSPRITE)%nat -> (o < 48)%nat ->
     colordata (dest (readcolordata f t version build true)) !! (p * 48 + o)%nat =
     Some x00) /\
  (forall p o, (p < oldpoSPRITE \/ newerpoSPRITE + 30 <= p)%nat -> (o < 48)%nat ->
     colordata (dest (readcolordata f t version build true)) !! (p * 48 + o)%nat =
     blit 0 (take (oldpdTOTAL * 48) f) (colordata t) !! (p * 48 + o)%nat).
Proof.
  intros Hleg Hf Hgap Hlen.
  assert (legacy_colors version build = true) as Hlc by (apply legacy_colors_true; done).
  assert (legacy_names version build = true) as Hln by (apply legacy_names_true; lia).
  assert (color_records version build 0 = oldpdTOTAL) as Hnc
    by (unfold color_records; by rewrite Hlc).
  assert (name_records version build 0 = 0%nat) as Hnn
    by (unfold name_records; by rewrite Hln).
  rewrite readcolordata_cases.
  rewrite before_commit_old_ok by (rewrite ?Hnc, ?Hnn; cbn [Nat.mul]; lia).
  rewrite Hnc, Hnn. cbn [ended dest trace unread committed file log mem].
  unfold names_calls, stored_colors. rewrite Hlc, Hln.
  cbn [Nat.mul drop colordata map_palnames map_colordata].
  rewrite take_take, Nat.min_id, app_nil_r.
  set (base := blit 0 (take (oldpdTOTAL * 48) f) (colordata t)).
  assert (length base = length (colordata t)) as Hbase by apply length_blit.
  repeat split.
  - rewrite rev_app_distr, rev_replicate. done.
  - intros q o Hq Ho.
    rewrite relocate_oldest_lookup by (rewrite ?Hbase; lia).
    repeat case_decide; try lia; try done; f_equal; lia.
  - intros p o Hp Ho.
    rewrite relocate_oldest_lookup by (rewrite ?Hbase; lia).
    repeat case_decide; try lia; done.
  - intros p o Hp Ho.
    destruct (decide (p * 48 + o < length base)%nat) as [Hin|Hout].
    + rewrite relocate_oldest_lookup by (rewrite ?Hbase; lia).
      repeat case_decide; try lia; done.
    + rewrite !lookup_ge_None_2; [done | lia | rewrite length_relocate_oldest; lia].
Qed.



(** ** Further properties of the decoder *)

(** *** The size of the section *)


(** X2: a call that returns [0] leaves the stream right behind the section:
    the unread rest is the stream without its first [section_size] bytes. *)
Theorem unread_after_section f t version build k :
  ended (readcolordata f t version build k) = Returned qe_OK ->
  unread (readcolordata f t version build k) = drop (section_size version build f) f.
Proof.
  intros Hok. destruct (ended_ok _ _ _ _ _ Hok) as (o & w & Hrun & ->).
  apply before_commit_Next in Hrun as (_ & _ & _ & _ & Hrest).
  cbn [file unread] in *.
  unfold section_size, cycles_size, declared_rows.
  rewrite <- !drop_drop.
  fold (after_header version f). fold (after_colors version build f).
  fold (after_names version build f).
  destruct (0x192 <? version).
  - destruct Hrest as (lo & hi & rest & Hf & _ & _ & -> & _).
    rewrite Hf. done.
  - by destruct Hrest as (_ & -> & _).
Qed.

(** *** A dry run and a committing run *)

Lemma agree_ret {A B} (R : A -> B -> Prop) a b : R a b -> agree R (ret a) (ret b).
Proof. intros HR w1 w2 Hf. by split. Qed.

Lemma agree_leave {A B} (R : A -> B -> Prop) c : agree R (leave c) (leave c).
Proof. intros w1 w2 Hf. by split. Qed.

Lemma agree_bind {A A' B B'} (R : A -> A' -> Prop) (S : B -> B' -> Prop)
    (m1 : M A) (m2 : M A') (k1 : A -> M B) (k2 : A' -> M B') :
  agree R m1 m2 -> (forall a a', R a a' -> agree S (k1 a) (k2 a')) ->
  agree S (bind m1 k1) (bind m2 k2).
Proof.
  intros Hm Hk w1 w2 Hf. unfold bind. destruct (Hm w1 w2 Hf) as [Hs Hf'].
  destruct (m1 w1) as [[a|c] w1'], (m2 w2) as [[a'|c'] w2'];
    cbn [fst snd same_step] in *; try done.
  by apply Hk.
Qed.

Lemma agree_for_loop {T T'} (R : T -> T' -> Prop) n i
    (body1 : nat -> T -> M T) (body2 : nat -> T' -> M T') s1 s2 :
  (forall i a a', R a a' -> agree R (body1 i a) (body2 i a')) ->
  R s1 s2 -> agree R (for_loop n i body1 s1) (for_loop n i body2 s2).
Proof.
  intros Hb. revert i s1 s2. induction n as [|n IH]; intros i s1 s2 HR.
  - by apply agree_ret.
  - cbn [for_loop]. eapply agree_bind; [by apply Hb|]. intros a a' Ha. by apply IH.
Qed.

Lemma agree_still (m1 m2 : M unit) :
  still m1 -> still m2 -> agree (fun _ _ => True) m1 m2.
Proof.
  intros H1 H2 w1 w2 Hf.
  destruct (H1 w1) as (w1' & -> & Hf1), (H2 w2) as (w2' & -> & Hf2).
  cbn [fst snd same_step]. split; [done | congruence].
Qed.

Lemma still_ret : still (ret tt).
Proof. intros w. by exists w. Qed.

Lemma still_modify g : still (modify g).
Proof. intros w. by eexists. Qed.

Lemma still_emit e : still (emit e).
Proof. intros w. by eexists. Qed.

Lemma still_bind (m : M unit) (k : unit -> M unit) :
  still m -> (forall u, still (k u)) -> still (bind m k).
Proof.
  intros Hm Hk w. unfold bind. destruct (Hm w) as (w1 & -> & Hf1).
  destruct (Hk tt w1) as (w2 & -> & Hf2). exists w2. split; [done | congruence].
Qed.

Lemma still_when k (m : M unit) : still m -> still (when k then m).
Proof. intros Hm. destruct k; [done | apply still_ret]. Qed.

Lemma still_for_loop n i (body : nat -> unit -> M unit) :
  (forall i u, still (body i u)) -> still (for_loop n i body tt).
Proof.
  intros Hb. revert i. induction n as [|n IH]; intros i; [apply still_ret|].
  cbn [for_loop]. apply still_bind; [apply Hb|]. intros []. apply IH.
Qed.

Lemma agree_require {A} (m1 m2 : M (option A)) :
  agree eq m1 m2 -> agree eq (require m1) (require m2).
Proof.
  intros Hm. eapply agree_bind; [exact Hm|]. intros a a' <-.
  destruct a; [by apply agree_ret | apply agree_leave].
Qed.

Lemma agree_pfread n : agree eq (pfread n) (pfread n).
Proof.
  intros w1 w2 Hf. unfold pfread, bind, emit. cbn [file]. rewrite Hf.
  by destruct (pack_fread n (file w2)) as [[bs r]|].
Qed.

Lemma agree_p_igetw : agree eq p_igetw p_igetw.
Proof.
  intros w1 w2 Hf. unfold p_igetw, bind, emit. cbn [file]. rewrite Hf.
  by destruct (file w2) as [|b0 [|b1 r]].
Qed.

Lemma agree_p_igetl : agree eq p_igetl p_igetl.
Proof.
  intros w1 w2 Hf. unfold p_igetl, bind, emit. cbn [file]. rewrite Hf.
  by destruct (file w2) as [|b0 [|b1 [|b2 [|b3 r]]]].
Qed.

Lemma agree_p_getc : agree eq p_getc p_getc.
Proof.
  intros w1 w2 Hf. unfold p_getc, bind, emit. cbn [file]. rewrite Hf.
  by destruct (file w2) as [|b0 r].
Qed.

Lemma agree_on_cycle i j g1 g2 tm1 tm2 :
  agree (fun _ _ => True) (on_cycle i j g1 tm1) (on_cycle i j g2 tm2).
Proof. intros w1 w2 Hf. by split. Qed.

Lemma agree_read_header version : agree eq (read_header version) (read_header version).
Proof.
  unfold read_header. destruct (0x192 <? version); [|by apply agree_ret].
  eapply agree_bind; [apply agree_require, agree_p_igetw|]. intros sv ? <-.
  eapply agree_bind; [apply agree_require, agree_p_igetw|]. intros ? ? _.
  eapply agree_bind; [apply agree_require, agree_p_igetl|]. intros ? ? _.
  by apply agree_ret.
Qed.

Lemma agree_read_records k1 k2 base n :
  agree (fun _ _ => True) (read_records k1 base n) (read_records k2 base n).
Proof.
  apply agree_for_loop; [|done]. intros i [] [] _.
  eapply agree_bind; [apply agree_require, agree_pfread|]. intros rec ? <-.
  apply agree_still; apply still_when, still_modify.
Qed.

Lemma agree_read_colors version build s_version k1 k2 :
  agree (fun _ _ => True)
    (read_colors version build s_version k1) (read_colors version build s_version k2).
Proof.
  unfold read_colors.
  eapply agree_bind; [apply agree_read_records|]. intros _ _ _.
  destruct (legacy_colors version build).
  - apply agree_still; apply still_when, still_modify.
  - eapply agree_bind; [apply agree_read_records|]. intros _ _ _.
    destruct (s_version <? 4).
    + apply agree_still; apply still_when, still_modify.
    + apply agree_read_records.
Qed.

Lemma agree_read_palnames version build s_version k1 k2 :
  agree (fun _ _ => True)
    (read_palnames version build s_version k1)
    (read_palnames version build s_version k2).
Proof.
  unfold read_palnames. destruct (legacy_names version build).
  - apply agree_still; apply still_when, still_bind;
      (apply still_emit || (intros; apply still_modify)).
  - eapply agree_bind with (R := fun _ _ => True).
    + apply agree_for_loop; [|done]. intros i [] [] _.
      eapply agree_bind; [apply agree_require, agree_pfread|]. intros rec ? <-.
      apply agree_still; apply still_when, still_modify.
    + intros _ _ _. apply agree_still; apply still_when, still_for_loop;
        intros; apply still_modify.
Qed.

Lemma agree_read_field set i tm1 tm2 :
  agree (fun _ _ => True) (read_field set i tm1) (read_field set i tm2).
Proof.
  apply agree_for_loop; [|done]. intros j a a' _.
  eapply agree_bind; [apply agree_require, agree_p_getc|]. intros v ? <-.
  apply agree_on_cycle.
Qed.

Lemma agree_read_cycles tm1 tm2 :
  agree (fun _ _ => True) (read_cycles tm1) (read_cycles tm2).
Proof.
  unfold read_cycles.
  eapply agree_bind with (R := fun _ _ => True).
  { apply agree_for_loop; [|done]. intros i a a' _.
    apply agree_for_loop; [|done]. intros j b b' _.
    eapply agree_bind; [apply agree_on_cycle|]. intros ? ? _.
    eapply agree_bind; [apply agree_on_cycle|]. intros ? ? _.
    apply agree_on_cycle. }
  intros a a' _.
  eapply agree_bind; [apply agree_require, agree_p_igetw|]. intros n ? <-.
  apply agree_for_loop; [|done]. intros i b b' _. unfold read_row.
  eapply agree_bind; [apply agree_read_field|]. intros ? ? _.
  eapply agree_bind; [apply agree_read_field|]. intros ? ? _.
  apply agree_read_field.
Qed.

Lemma agree_body version build k1 k2 :
  agree (fun _ _ => True)
    (readcolordata_body version build k1) (readcolordata_body version build k2).
Proof.
  unfold readcolordata_body.
  eapply agree_bind with (R := fun _ _ => True).
  { intros w1 w2 Hf. by split. }
  intros tm1 tm2 _.
  eapply agree_bind; [apply agree_read_header|]. intros sv ? <-.
  eapply agree_bind; [apply agree_read_colors|]. intros _ _ _.
  eapply agree_bind; [apply agree_read_palnames|]. intros _ _ _.
  eapply agree_bind with (R := fun _ _ => True).
  - destruct (0x192 <? version); [|by apply agree_ret].
    eapply agree_bind; [apply agree_read_cycles|]. intros a a' _.
    apply agree_still; apply still_when, still_modify.
  - intros _ _ _. apply agree_leave.
Qed.

(** X3: how a call ends and where it leaves the stream depend on the stream,
    the version and the build only: a dry run ([keepdata] false) predicts
    the status and the stream position of the committing run, whatever the
    destinations hold. *)
Theorem status_ignores_keepdata f t1 t2 version build k1 k2 :
  ended (readcolordata f t1 version build k1) =
    ended (readcolordata f t2 version build k2) /\
  unread (readcolordata f t1 version build k1) =
    unread (readcolordata f t2 version build k2).
Proof.
  unfold readcolordata.
  destruct (agree_body version build k1 k2
              {| file := f; log := []; mem := t1 |}
              {| file := f; log := []; mem := t2 |} eq_refl) as [Hs Hf].
  destruct (readcolordata_body version build k1 _) as [[a|c] w1],
           (readcolordata_body version build k2 _) as [[a'|c'] w2];
    cbn [fst snd same_step ended unread] in *; try done; by subst.
Qed.

(** *** The fields of [Misc] around the cycle table *)

(** X4: the fields of [Misc] other than the cycle table are changed only
    by a cycle section that declares more than 256 rows: however a call
    ends, the fields in front of the table are as they were, and so are
    the fields behind it when the stream declares at most 256 rows. *)
Theorem fields_kept_up_to_256_rows f t version build k :
  others (Misc (dest (readcolordata f t version build k))) = others (Misc t) /\
  ((declared_rows version build f <= 256)%nat ->
   behind (Misc (dest (readcolordata f t version build k))) = behind (Misc t)).
Proof.
  rewrite readcolordata_cases.
  destruct (respects_before_commit k (fun _ => True) version build
              I I I (fun _ => conj I (conj I I))
              {| file := f; log := []; mem := t |}) as [(HM & _ & _) _].
  pose proof (before_commit_Next version build k {| file := f; log := []; mem := t |})
    as HNext.
  destruct (before_commit version build k _) as [[o|c] w]; cbn [fst snd dest mem] in *;
    [|by rewrite HM].
  destruct (HNext o w eq_refl) as (_ & _ & _ & _ & Hrest). cbn [file mem] in Hrest.
  unfold declared_rows. destruct (0x192 <? version).
  - destruct Hrest as (lo & hi & rest & -> & _ & -> & _).
    cbn [cycle_rows committed]. destruct k; [|by rewrite HM].
    cbn [Misc set_Misc]. split.
    + by rewrite others_store_rows.
    + intros Hn. by rewrite behind_store_rows_within by lia.
  - destruct Hrest as (-> & _). cbn [committed]. by rewrite HM.
Qed.

(** *** The header words the decoder does not use *)

Lemma before_commit_past_header version build k b0 b1 b2 b3 b4 b5 b6 b7 r t :
  0x192 < version ->
  before_commit version build k
    {| file := b0 :: b1 :: b2 :: b3 :: b4 :: b5 :: b6 :: b7 :: r; log := []; mem := t |} =
  after_the_header version build (word16 b0 b1) k (Misc t)
    {| file := r; log := [Call_igetl; Call_igetw; Call_igetw]; mem := t |}.
Proof.
  intros Hv. unfold before_commit.
  unfold bind at 1. unfold gets. cbv beta iota. unfold bind at 1.
  by rewrite read_header_ok.
Qed.

(** X5: for [version > 0x192] the reserved word and the section length of
    the header are read and never used: two streams that differ only in
    those six bytes are decoded alike. *)
Theorem header_length_unused b0 b1 x y rest t version build k :
  0x192 < version -> length x = 6%nat -> length y = 6%nat ->
  readcolordata (b0 :: b1 :: x ++ rest) t version build k =
  readcolordata (b0 :: b1 :: y ++ rest) t version build k.
Proof.
  intros Hv Hx Hy.
  destruct x as [|x0 [|x1 [|x2 [|x3 [|x4 [|x5 [|? ?]]]]]]]; try discriminate.
  destruct y as [|y0 [|y1 [|y2 [|y3 [|y4 [|y5 [|? ?]]]]]]]; try discriminate.
  rewrite !readcolordata_cases. cbn [app].
  by rewrite !before_commit_past_header.
Qed.

(** *** The extended and the newest colour layouts *)

Lemma length_relocate_old c : length (relocate_old c) = length c.
Proof.
  unfold relocate_old. cbv zeta.
  by repeat (rewrite length_memcpy || rewrite length_memset0).
Qed.

Lemma relocate_old_lookup (c : list byte) (r o : nat) :
  (newpoSPRITE + 30 <= newerpoSPRITE)%nat ->
  ((newerpoSPRITE + 30) * 48 <= length c)%nat ->
  (o < 48)%nat -> (r * 48 + o < length c)%nat ->
  relocate_old c !! (r * 48 + o)%nat =
    if decide (newpoSPRITE <= r < newerpoSPRITE)%nat then Some x00
    else if decide (newerpoSPRITE <= r < newerpoSPRITE + 30)%nat
         then c !! ((newpoSPRITE + (r - newerpoSPRITE)) * 48 + o)%nat
    else c !! (r * 48 + o)%nat.
Proof.
  intros Hgap Hlen Ho Hr. unfold relocate_old. cbv zeta.
  repeat case_decide;
    repeat (first [ rewrite lookup_memset0
                  | rewrite lookup_memcpy
                      by (repeat (rewrite length_memcpy || rewrite length_memset0); lia) ];
            repeat (rewrite length_memcpy || rewrite length_memset0);
            case_decide; try lia);
    try done; f_equal; lia.
Qed.

Lemma committed_colordata k o (t : tables Others) :
  colordata (committed k o t) = colordata t.
Proof. unfold committed. by destruct o, k. Qed.

(** X6: in the extended layout with a sub-version below 4 ([version >
    0x192], or [version = 0x192] and [build >= 73]), a call with [keepdata]
    true that returns [0] has read [oldpdTOTAL + (newpdTOTAL - oldpdTOTAL)]
    records and then moved the thirty sprite records from [newpoSPRITE] to
    [newerpoSPRITE] and zeroed the records from [newpoSPRITE] up to
    [newerpoSPRITE]; every other record is as read. *)
Theorem extended_relocation f t version build :
  0x192 < version \/ (version = 0x192 /\ 73 <= build) ->
  sub_version version f < 4 ->
  (newpoSPRITE + 30 <= newerpoSPRITE)%nat ->
  ((newerpoSPRITE + 30) * 48 <= length (colordata t))%nat ->
  ended (readcolordata f t version build true) = Returned qe_OK ->
  length (color_bytes version build f) =
    ((oldpdTOTAL + (newpdTOTAL - oldpdTOTAL)) * 48)%nat /\
  colordata (dest (readcolordata f t version build true)) =
    relocate_old (read_extended (color_bytes version build f) (colordata t)) /\
  (forall q o, (q < 30)%nat -> (o < 48)%nat ->
     colordata (dest (readcolordata f t version build true))
       !! ((newerpoSPRITE + q) * 48 + o)%nat =
     read_extended (color_bytes version build f) (colordata t)
       !! ((newpoSPRITE + q) * 48 + o)%nat) /\
  (forall p o, (newpoSPRITE <= p < newerpoSPRITE)%nat -> (o < 48)%nat ->
     colordata (dest (readcolordata f t version build true)) !! (p * 48 + o)%nat =
     Some x00) /\
  (forall p o, (p < newpoSPRITE \/ newerpoSPRITE + 30 <= p)%nat -> (o < 48)%nat ->
     colordata (dest (readcolordata f t version build true)) !! (p * 48 + o)%nat =
     read_extended (color_bytes version build f) (colordata t) !! (p * 48 + o)%nat).
Proof.
  intros Hnew Hsv Hgap Hlen Hok.
  assert (legacy_colors version build = false) as Hlc by (unfold legacy_colors; lia).
  assert ((sub_version version f <? 4) = true) as Hlt by lia.
  destruct (ended_ok _ _ _ _ _ Hok) as (o & w & Hrun & ->).
  apply before_commit_Next in Hrun as (_ & H2 & _ & Hmem & _).
  cbn [file log mem dest] in *.
  assert (color_records version build (sub_version version f) =
          (oldpdTOTAL + (newpdTOTAL - oldpdTOTAL))%nat) as Hnc
    by (unfold color_records; by rewrite Hlc, Hlt).
  rewrite committed_colordata, Hmem.
  cbn [colordata map_palnames map_colordata].
  unfold stored_colors. rewrite Hlc, Hlt. cbv zeta.
  fold (read_extended (color_bytes version build f) (colordata t)).
  set (base := read_extended (color_bytes version build f) (colordata t)).
  assert (length base = length (colordata t)) as Hbase
    by (unfold base, read_extended; by rewrite !length_blit).
  split; [|split; [done|split; [|split]]].
  - unfold color_bytes. rewrite length_take, Hnc. rewrite Hnc in H2. lia.
  - intros q o' Hq Ho.
    rewrite relocate_old_lookup by (rewrite ?Hbase; lia).
    repeat case_decide; try lia. f_equal. lia.
  - intros p o' Hp Ho.
    rewrite relocate_old_lookup by (rewrite ?Hbase; lia).
    repeat case_decide; try lia; done.
  - intros p o' Hp Ho.
    destruct (decide (p * 48 + o' < length base)%nat) as [Hin|Hout].
    + rewrite relocate_old_lookup by (rewrite ?Hbase; lia).
      repeat case_decide; try lia; done.
    + rewrite !lookup_ge_None_2; [done | lia | rewrite length_relocate_old; lia].
Qed.

(** X7: with a sub-version of 4 or more a call with [keepdata] true that
    returns [0] has read [newerpdTOTAL] records and stored them as they
    come, with no relocation: the first [newerpdTOTAL * 48] bytes of the
    colour table are the colour bytes of the stream and the rest of the
    table is as it was. *)
Theorem newest_colors_verbatim f t version build :
  4 <= sub_version version f ->
  (oldpdTOTAL <= newpdTOTAL)%nat -> (newpdTOTAL <= newerpdTOTAL)%nat ->
  ended (readcolordata f t version build true) = Returned qe_OK ->
  length (color_bytes version build f) = (newerpdTOTAL * 48)%nat /\
  colordata (dest (readcolordata f t version build true)) =
    blit 0 (color_bytes version build f) (colordata t) /\
  (forall i, (i < newerpdTOTAL * 48)%nat -> (i < length (colordata t))%nat ->
     colordata (dest (readcolordata f t version build true)) !! i =
     color_bytes version build f !! i) /\
  (forall i, (newerpdTOTAL * 48 <= i)%nat ->
     colordata (dest (readcolordata f t version build true)) !! i =
     colordata t !! i).
Proof.
  intros Hsv Hon Hnn Hok.
  assert (0x192 < version) as Hv.
  { unfold sub_version in Hsv. destruct (0x192 <? version) eqn:E; lia. }
  assert (legacy_colors version build = false) as Hlc by (unfold legacy_colors; lia).
  assert ((sub_version version f <? 4) = false) as Hlt by lia.
  destruct (ended_ok _ _ _ _ _ Hok) as (o & w & Hrun & ->).
  apply before_commit_Next in Hrun as (_ & H2 & _ & Hmem & _).
  cbn [file log mem dest] in *.
  assert (color_records version build (sub_version version f) = newerpdTOTAL) as Hnc
    by (unfold color_records; rewrite Hlc, Hlt; lia).
  assert (length (color_bytes version build f) = (newerpdTOTAL * 48)%nat) as Hcb.
  { unfold color_bytes. rewrite length_take, Hnc. rewrite Hnc in H2. lia. }
  assert (colordata (committed true o (mem w)) =
          blit 0 (color_bytes version build f) (colordata t)) as ->.
  { rewrite committed_colordata, Hmem. cbn [colordata map_palnames map_colordata].
    unfold stored_colors. rewrite Hlc, Hlt. cbv zeta.
    set (data := color_bytes version build f) in *.
    replace (oldpdTOTAL * 48)%nat
      with (0 + length (take (oldpdTOTAL * 48) data))%nat at 2
      by (rewrite length_take; lia).
    rewrite blit_app, take_take_drop, drop_drop.
    replace (newpdTOTAL * 48)%nat
      with (0 + length (take (oldpdTOTAL * 48 + (newpdTOTAL - oldpdTOTAL) * 48) data))%nat
      by (rewrite length_take; lia).
    by rewrite blit_app, take_drop. }
  split; [done|]. split; [done|]. split.
  - intros i Hi Hl. rewrite lookup_blit, decide_True by lia. by rewrite Nat.sub_0_r.
  - intros i Hi. rewrite lookup_blit, decide_False by lia. done.
Qed.

(** *** What follows the section *)

Lemma forward_ret {A} g (a : A) : forward g (ret a).
Proof. by intros w a' w' [= <- <-]. Qed.

Lemma forward_leave {A} g c : forward g (leave (A := A) c).
Proof. by intros w a w'. Qed.

Lemma forward_bind {A B} g (m : M A) (k : A -> M B) :
  forward g m -> (forall a, forward g (k a)) -> forward g (bind m k).
Proof.
  intros Hm Hk w b w''. unfold bind.
  destruct (m w) as [[a|c] w'] eqn:E; [|done..].
  intros Hrun. rewrite (Hm _ _ _ E). by apply Hk.
Qed.

Lemma forward_for_loop {T} g n i (body : nat -> T -> M T) s :
  (forall i s, forward g (body i s)) -> forward g (for_loop n i body s).
Proof.
  intros Hb. revert i s. induction n as [|n IH]; intros i s; cbn [for_loop].
  - apply forward_ret.
  - apply forward_bind; auto.
Qed.

Lemma forward_emit g e : forward g (emit e).
Proof. by intros w a w' [= <- <-]. Qed.

Lemma forward_gets {A} g (h : tables Others -> A) : forward g (gets h).
Proof. by intros w a w' [= <- <-]. Qed.

Lemma forward_modify g h : forward g (modify h).
Proof. by intros w a w' [= <- <-]. Qed.

Lemma forward_when g k (m : M unit) : forward g m -> forward g (when k then m).
Proof. intros Hm. destruct k; [done | apply forward_ret]. Qed.

Lemma forward_on_cycle g i j h tm : forward g (on_cycle i j h tm).
Proof. apply forward_ret. Qed.

Lemma forward_require_pfread g n : forward g (require (pfread n)).
Proof.
  intros w bs w'. destruct (decide (n <= length (file w))%nat) as [Hn|Hn].
  - rewrite require_pfread_ok by done. intros [= <- <-].
    rewrite require_pfread_ok by (cbn [extend set_file file]; rewrite length_app; lia).
    unfold extend, set_file. cbn [file log mem].
    by rewrite take_app_le, drop_app_le by done.
  - by rewrite require_pfread_short by lia.
Qed.

Lemma forward_require_p_igetw g : forward g (require p_igetw).
Proof.
  intros [f lg m] v w'. destruct f as [|b0 [|b1 r]];
    try (rewrite require_p_igetw_short by (cbn [file length]; lia); done).
  rewrite require_p_igetw_ok. by intros [= <- <-].
Qed.

Lemma forward_require_p_igetl g : forward g (require p_igetl).
Proof.
  intros [f lg m] v w'. destruct f as [|b0 [|b1 [|b2 [|b3 r]]]];
    try (rewrite require_p_igetl_short by (cbn [file length]; lia); done).
  rewrite require_p_igetl_ok. by intros [= <- <-].
Qed.

Lemma forward_require_p_getc g : forward g (require p_getc).
Proof.
  intros [f lg m] v w'. destruct f as [|b r].
  - by rewrite require_p_getc_short.
  - rewrite require_p_getc_ok. by intros [= <- <-].
Qed.

Lemma forward_read_header g version : forward g (read_header version).
Proof.
  unfold read_header. destruct (0x192 <? version); [|apply forward_ret].
  apply forward_bind; [apply forward_require_p_igetw|]. intros sv.
  apply forward_bind; [apply forward_require_p_igetw|]. intros _.
  apply forward_bind; [apply forward_require_p_igetl|]. intros _.
  apply forward_ret.
Qed.

Lemma forward_read_records g k base n : forward g (read_records k base n).
Proof.
  apply forward_for_loop. intros i _.
  apply forward_bind; [apply forward_require_pfread|]. intros rec.
  apply forward_when, forward_modify.
Qed.

Lemma forward_read_colors g version build s_version k :
  forward g (read_colors version build s_version k).
Proof.
  unfold read_colors.
  apply forward_bind; [apply forward_read_records|]. intros _.
  destruct (legacy_colors version build); [apply forward_when, forward_modify|].
  apply forward_bind; [apply forward_read_records|]. intros _.
  destruct (s_version <? 4); [apply forward_when, forward_modify|].
  apply forward_read_records.
Qed.

Lemma forward_read_palnames g version build s_version k :
  forward g (read_palnames version build s_version k).
Proof.
  unfold read_palnames. destruct (legacy_names version build).
  - apply forward_when, forward_bind; [apply forward_emit|].
    intros _. apply forward_modify.
  - apply forward_bind.
    + apply forward_for_loop. intros i _.
      apply forward_bind; [apply forward_require_pfread|]. intros rec.
      apply forward_when, forward_modify.
    + intros _. apply forward_when, forward_for_loop. intros i _.
      apply forward_modify.
Qed.

Lemma forward_read_field g set i tm : forward g (read_field set i tm).
Proof.
  apply forward_for_loop. intros j tm1.
  apply forward_bind; [apply forward_require_p_getc|]. intros v.
  apply forward_on_cycle.
Qed.

Lemma forward_read_cycles g tm : forward g (read_cycles tm).
Proof.
  unfold read_cycles. apply forward_bind.
  { apply forward_for_loop. intros i tm1. apply forward_for_loop. intros j tm2.
    apply forward_bind; [apply forward_on_cycle|]. intros tm3.
    apply forward_bind; [apply forward_on_cycle|]. intros tm4.
    apply forward_on_cycle. }
  intros tm1. apply forward_bind; [apply forward_require_p_igetw|]. intros n.
  apply forward_for_loop. intros i tm2. unfold read_row.
  apply forward_bind; [apply forward_read_field|]. intros tm3.
  apply forward_bind; [apply forward_read_field|]. intros tm4.
  apply forward_read_field.
Qed.

Lemma forward_before_commit g version build k :
  forward g (before_commit version build k).
Proof.
  unfold before_commit, after_the_header.
  apply forward_bind; [apply forward_gets|]. intros tm.
  apply forward_bind; [apply forward_read_header|]. intros sv.
  apply forward_bind; [apply forward_read_colors|]. intros _.
  apply forward_bind; [apply forward_read_palnames|]. intros _.
  destruct (0x192 <? version); [|apply forward_ret].
  apply forward_bind; [apply forward_read_cycles|]. intros tm'.
  apply forward_ret.
Qed.

(** X8: the decoder reads its own section and nothing behind it: if a call
    on [f] returns [0], the call on [f ++ g] returns [0] with the same
    destinations and the same calls, and leaves [g] behind the unread rest. *)
Theorem trailing_bytes_unread f g t version build k :
  ended (readcolordata f t version build k) = Returned qe_OK ->
  readcolordata (f ++ g) t version build k =
  {| ended := Returned qe_OK;
     dest := dest (readcolordata f t version build k);
     trace := trace (readcolordata f t version build k);
     unread := unread (readcolordata f t version build k) ++ g |}.
Proof.
  intros Hok. destruct (ended_ok _ _ _ _ _ Hok) as (o & w & Hrun & ->).
  apply (forward_before_commit g) in Hrun.
  rewrite readcolordata_cases.
  change {| file := f ++ g; log := []; mem := t |}
    with (extend g {| file := f; log := []; mem := t |}).
  by rewrite Hrun.
Qed.

(** *** A section cut short *)

Lemma sub_version_take version m f :
  (header_size version <= m)%nat ->
  sub_version version (take m f) = sub_version version f.
Proof.
  unfold header_size, sub_version. destruct (0x192 <? version); [|done].
  intros Hm. destruct m as [|[|m]]; try lia. by destruct f as [|b0 [|b1 r]].
Qed.

Lemma cycle_rows_take j l : (2 <= j)%nat -> cycle_rows (take j l) = cycle_rows l.
Proof.
  intros Hj. destruct j as [|[|j]]; try lia. by destruct l as [|b0 [|b1 r]].
Qed.

Lemma after_names_take version build m f :
  (header_size version <= m)%nat ->
  after_names version build (take m f) =
  take (m - header_size version -
        color_records version build (sub_version version f) * 48 -
        name_records version build (sub_version version f) * PALNAMESIZE)
    (after_names version build f).
Proof.
  intros Hm. unfold after_names, after_colors, after_header.
  rewrite sub_version_take by done.
  by rewrite !List.skipn_firstn_comm.
Qed.

(** X9: a section cut short is refused: if a call on [f] returns [0], the
    call on any prefix of [f] shorter than the section returns
    [qe_invalid]. *)
Theorem truncated_section_invalid f t version build k m :
  ended (readcolordata f t version build k) = Returned qe_OK ->
  (m < section_size version build f)%nat ->
  ended (readcolordata (take m f) t version build k) = Returned qe_invalid.
Proof.
  intros Hok Hm. apply ended_ok_iff in Hok as Hsize.
  assert (length (take m f) = m) as Hlen by (rewrite length_take; lia).
  destruct (decide (header_size version <= m)%nat) as [Hh|Hh].
  2:{ unfold header_size in Hh. destruct (0x192 <? version) eqn:E; [|lia].
      rewrite readcolordata_cases.
      destruct (before_commit_header_short version build k (take m f) t)
        as [f' ->]; [lia | lia | done]. }
  pose proof (after_names_take version build m f Hh) as Hafter.
  pose proof (sub_version_take version m f Hh) as Hsv.
  assert (section_size version build (take m f) <= m -> False)%nat as Hnot_ok.
  { unfold section_size, cycles_size, declared_rows in *. rewrite Hsv, Hafter.
    destruct (0x192 <? version); [|lia].
    set (j := (m - header_size version -
               color_records version build (sub_version version f) * 48 -
               name_records version build (sub_version version f) * PALNAMESIZE)%nat).
    destruct (decide (2 <= j)%nat) as [Hj|Hj].
    - rewrite cycle_rows_take by done. lia.
    - lia. }
  destruct (ended (readcolordata (take m f) t version build k)) as [[]] eqn:E.
  - apply ended_ok_iff in E as Hs. rewrite Hlen in Hs. by destruct Hnot_ok.
  - done.
Qed.

(** *** A failure in the cycle section *)


(** *** The calls of a successful read, and the old formats' [Misc] *)

(** X11: a call that returns [0] has made exactly these calls, in this
    order: for [version > 0x192] the three header reads; one 48-byte block
    read per colour record; the name calls (one block read per name, or
    [init_palnames] alone under [keepdata] for the oldest files); and for
    [version > 0x192] one 16-bit read of the cycle count followed by nine
    byte reads per declared row. *)
Theorem calls_of_a_successful_read f t version build k :
  ended (readcolordata f t version build k) = Returned qe_OK ->
  trace (readcolordata f t version build k) =
    table_calls version build k f ++
    (if 0x192 <? version
     then Call_igetw :: replicate (9 * declared_rows version build f) Call_getc
     else []).
Proof.
  intros Hok. destruct (ended_ok _ _ _ _ _ Hok) as (o & w & Hrun & ->).
  cbn [trace]. apply before_commit_Next in Hrun as (_ & _ & _ & _ & Hrest).
  cbn [file log] in Hrest. unfold declared_rows.
  destruct (0x192 <? version).
  - destruct Hrest as (lo & hi & rest & -> & _ & _ & _ & ->). reflexivity.
  - destruct Hrest as (_ & _ & ->). cbn [rev app]. by rewrite app_nil_r.
Qed.

(** X12: for [version <= 0x192] the cycle section is skipped altogether:
    whatever the stream holds and however the call ends, [Misc] is left as
    it was, also with [keepdata] true. *)
Theorem old_format_keeps_Misc f t version build k :
  version <= 0x192 ->
  Misc (dest (readcolordata f t version build k)) = Misc t.
Proof.
  intros Hv. rewrite readcolordata_cases.
  destruct (respects_before_commit k (fun _ => True) version build
              I I I (fun _ => conj I (conj I I))
              {| file := f; log := []; mem := t |}) as [(HM & _ & _) _].
  pose proof (before_commit_Next version build k {| file := f; log := []; mem := t |})
    as HNext.
  destruct (before_commit version build k _) as [[o|c] w]; cbn [fst snd dest mem] in *;
    [|done..].
  destruct (HNext o w eq_refl) as (_ & _ & _ & _ & Hrest).
  assert ((0x192 <? version) = false) as E by lia. rewrite E in Hrest.
  destruct Hrest as (-> & _). done.
Qed.

End Decoder.


(** ** The decoder on concrete streams *)



(** C3 (as stated) fails: at [version = 0x192], [build = 76] a call that
    returns [0] never calls [init_palnames]; it reads 256 name records and
    stores them. *)
Lemma names_read_at_build_76 :
  0x192 <= 0x192 /\
  match readcolordata (L := quest_layout) zero_palnames
          (bytes (3373 * 48 + 256 * 17) x01) (filled_tables x00 tt) 0x192 76 true with
  | {| ended := e; dest := d; trace := calls |} =>
      e = Returned qe_OK /\
      calls = replicate 3373 (Call_fread 48) ++ replicate 256 (Call_fread 17) /\
      palnames d !! 0%nat = Some (bytes 17 x01) /\
      zero_palnames (palnames (filled_tables x00 tt)) !! 0%nat = Some (bytes 17 x00)
  end.
Proof. vm_compute. done. Qed.

Lemma old_format_calls_witness :
  0x190 <= 0x192 /\
  Forall block_call
    (trace (readcolordata (L := quest_layout) zero_palnames
              (bytes (240 * 48) x01) (filled_tables x00 tt) 0x190 0 true)) /\
  trace (readcolordata (L := quest_layout) zero_palnames
           (bytes (240 * 48) x01) (filled_tables x00 tt) 0x190 0 true)
    = replicate (color_records (L := quest_layout) 0x190 0 0) (Call_fread 48) ++
      [Call_init_palnames] /\
  palnames (dest (readcolordata (L := quest_layout) zero_palnames
                    (bytes (240 * 48) x01) (filled_tables x00 tt) 0x190 0 true))
    = zero_palnames (palnames (filled_tables x00 tt)).
Proof.
  assert (0x190 <= 0x192) as Hv by lia.
  destruct (old_format_calls (L := quest_layout) zero_palnames
              (bytes (240 * 48) x01) (filled_tables x00 tt) 0x190 0 true Hv)
    as (Hcalls & _ & Hreset).
  destruct Hreset as [Htrace Hnames].
  - left. lia.
  - reflexivity.
  - vm_compute. reflexivity.
  - exact (conj Hv (conj Hcalls (conj Htrace Hnames))).
Defined.

Lemma header_read_first_witness :
  0x192 < 0x193 /\
  ended (readcolordata (L := quest_layout) zero_palnames [x04; x00; x00]
           (filled_tables x00 tt) 0x193 0 true) = Returned qe_invalid /\
  dest (readcolordata (L := quest_layout) zero_palnames [x04; x00; x00]
          (filled_tables x00 tt) 0x193 0 true) = filled_tables x00 tt /\
  trace (readcolordata (L := quest_layout) zero_palnames [x04; x00; x00]
           (filled_tables x00 tt) 0x193 0 true) = [Call_igetw; Call_igetw].
Proof.
  assert (0x192 < 0x193) as Hv by lia.
  destruct (header_read_first (L := quest_layout) zero_palnames [x04; x00; x00]
              (filled_tables x00 tt) 0x193 0 true Hv) as (_ & _ & Hshort).
  destruct Hshort as (He & Hd & Ht); [cbn [length]; lia|].
  exact (conj Hv (conj He (conj Hd Ht))).
Defined.

Lemma build_thresholds_witness :
  ((if (72 <? 73)%Z then oldpdTOTAL (Layout := quest_layout)
    else oldpdTOTAL (Layout := quest_layout) +
         (newpdTOTAL (Layout := quest_layout) - oldpdTOTAL (Layout := quest_layout))) * 48 +
   (if (72 <? 76)%Z then 0
    else OLDMAXLEVELS (Layout := quest_layout) * PALNAMESIZE (Layout := quest_layout))
   <= length (bytes (3373 * 48 + 256 * 17) x01))%nat /\
  ((if (76 <? 73)%Z then oldpdTOTAL (Layout := quest_layout)
    else oldpdTOTAL (Layout := quest_layout) +
         (newpdTOTAL (Layout := quest_layout) - oldpdTOTAL (Layout := quest_layout))) * 48 +
   (if (76 <? 76)%Z then 0
    else OLDMAXLEVELS (Layout := quest_layout) * PALNAMESIZE (Layout := quest_layout))
   <= length (bytes (3373 * 48 + 256 * 17) x01))%nat /\
  ended (readcolordata (L := quest_layout) zero_palnames
           (bytes (3373 * 48 + 256 * 17) x01) (filled_tables x00 tt) 0x192 72 true)
    = Returned qe_OK /\
  colordata (dest (readcolordata (L := quest_layout) zero_palnames
                     (bytes (3373 * 48 + 256 * 17) x01) (filled_tables x00 tt) 0x192 72 true))
    = relocate_oldest (L := quest_layout)
        (blit 0 (take (oldpdTOTAL (Layout := quest_layout) * 48)
                   (bytes (3373 * 48 + 256 * 17) x01))
           (colordata (filled_tables x00 tt))) /\
  ended (readcolordata (L := quest_layout) zero_palnames
           (bytes (3373 * 48 + 256 * 17) x01) (filled_tables x00 tt) 0x192 73 true)
    = Returned qe_OK /\
  colordata (dest (readcolordata (L := quest_layout) zero_palnames
                     (bytes (3373 * 48 + 256 * 17) x01) (filled_tables x00 tt) 0x192 73 true))
    = relocate_old (L := quest_layout)
        (blit (oldpdTOTAL (Layout := quest_layout) * 48)
           (take ((newpdTOTAL (Layout := quest_layout) -
                   oldpdTOTAL (Layout := quest_layout)) * 48)
              (drop (oldpdTOTAL (Layout := quest_layout) * 48)
                 (bytes (3373 * 48 + 256 * 17) x01)))
           (blit 0 (take (oldpdTOTAL (Layout := quest_layout) * 48)
                      (bytes (3373 * 48 + 256 * 17) x01))
              (colordata (filled_tables x00 tt)))) /\
  trace (readcolordata (L := quest_layout) zero_palnames
           (bytes (3373 * 48 + 256 * 17) x01) (filled_tables x00 tt) 0x192 75 true)
    = replicate (oldpdTOTAL (Layout := quest_layout) +
                 (newpdTOTAL (Layout := quest_layout) -
                  oldpdTOTAL (Layout := quest_layout))) (Call_fread 48) ++
      [Call_init_palnames] /\
  palnames (dest (readcolordata (L := quest_layout) zero_palnames
                    (bytes (3373 * 48 + 256 * 17) x01) (filled_tables x00 tt) 0x192 75 true))
    = zero_palnames (palnames (filled_tables x00 tt)) /\
  trace (readcolordata (L := quest_layout) zero_palnames
           (bytes (3373 * 48 + 256 * 17) x01) (filled_tables x00 tt) 0x192 76 true)
    = replicate (oldpdTOTAL (Layout := quest_layout) +
                 (newpdTOTAL (Layout := quest_layout) -
                  oldpdTOTAL (Layout := quest_layout))) (Call_fread 48) ++
      replicate (OLDMAXLEVELS (Layout := quest_layout))
        (Call_fread (PALNAMESIZE (Layout := quest_layout))) /\
  palnames (dest (readcolordata (L := quest_layout) zero_palnames
                    (bytes (3373 * 48 + 256 * 17) x01) (filled_tables x00 tt) 0x192 76 true))
    = iter_from (fun i p => <[i := replicate (PALNAMESIZE (Layout := quest_layout)) x00]> p)
        (MAXLEVELS (Layout := quest_layout) - OLDMAXLEVELS (Layout := quest_layout))
        (OLDMAXLEVELS (Layout := quest_layout))
        (store_names (L := quest_layout) (OLDMAXLEVELS (Layout := quest_layout)) 0
           (take (OLDMAXLEVELS (Layout := quest_layout) *
                  PALNAMESIZE (Layout := quest_layout))
              (drop ((oldpdTOTAL (Layout := quest_layout) +
                      (newpdTOTAL (Layout := quest_layout) -
                       oldpdTOTAL (Layout := quest_layout))) * 48)
                 (bytes (3373 * 48 + 256 * 17) x01)))
           (palnames (filled_tables x00 tt))).
Proof.
  assert (forall build,
            ((if (build <? 73)%Z then oldpdTOTAL (Layout := quest_layout)
              else oldpdTOTAL (Layout := quest_layout) +
                   (newpdTOTAL (Layout := quest_layout) -
                    oldpdTOTAL (Layout := quest_layout))) * 48 +
             (if (build <? 76)%Z then 0
              else OLDMAXLEVELS (Layout := quest_layout) *
                   PALNAMESIZE (Layout := quest_layout))
             <= length (bytes (3373 * 48 + 256 * 17) x01))%nat) as Hlen.
  { intros build. apply Nat.leb_le.
    destruct (build <? 73)%Z, (build <? 76)%Z; vm_compute; reflexivity. }
  destruct (build_thresholds (L := quest_layout) zero_palnames
              (bytes (3373 * 48 + 256 * 17) x01) (filled_tables x00 tt) 72 true (Hlen 72))
    as (Hok72 & _ & Hc72 & _).
  destruct (build_thresholds (L := quest_layout) zero_palnames
              (bytes (3373 * 48 + 256 * 17) x01) (filled_tables x00 tt) 73 true (Hlen 73))
    as (Hok73 & _ & Hc73 & _).
  destruct (build_thresholds (L := quest_layout) zero_palnames
              (bytes (3373 * 48 + 256 * 17) x01) (filled_tables x00 tt) 75 true (Hlen 75))
    as (_ & Ht75 & _ & Hn75).
  destruct (build_thresholds (L := quest_layout) zero_palnames
              (bytes (3373 * 48 + 256 * 17) x01) (filled_tables x00 tt) 76 true (Hlen 76))
    as (_ & Ht76 & _ & Hn76).
  exact (conj (Hlen 72) (conj (Hlen 76) (conj Hok72 (conj Hc72 (conj Hok73 (conj Hc73
          (conj Ht75 (conj Hn75 (conj Ht76 Hn76))))))))).
Defined.

(** C6 (as stated) fails: with [keepdata] false a call at [version = 0x190]
    returns [0] and the colour table is untouched, where the relocation
    would have zeroed the record at [oldpoSPRITE]. *)
Lemma dry_run_skips_relocation :
  0x190 < 0x192 /\
  ended (readcolordata (L := quest_layout) zero_palnames
           (bytes (240 * 48) x01) (filled_tables x01 tt) 0x190 0 false)
    = Returned qe_OK /\
  colordata (dest (readcolordata (L := quest_layout) zero_palnames
                     (bytes (240 * 48) x01) (filled_tables x01 tt) 0x190 0 false))
    !! (210 * 48)%nat = Some x01 /\
  relocate_oldest (L := quest_layout)
    (blit 0 (bytes (240 * 48) x01) (colordata (filled_tables x01 tt)))
    !! (210 * 48)%nat = Some x00.
Proof. vm_compute. done. Qed.

Lemma legacy_relocation_witness :
  (0x190 < 0x192 \/ (0x190 = 0x192 /\ 0 < 73)) /\
  (oldpdTOTAL (Layout := quest_layout) * 48 <= length (bytes (240 * 48) x01))%nat /\
  (oldpoSPRITE (Layout := quest_layout) + 30 <= newerpoSPRITE (Layout := quest_layout))%nat /\
  ((newerpoSPRITE (Layout := quest_layout) + 30) * 48
     <= length (colordata (filled_tables x00 tt)))%nat /\
  ended (readcolordata (L := quest_layout) zero_palnames
           (bytes (240 * 48) x01) (filled_tables x00 tt) 0x190 0 true)
    = Returned qe_OK /\
  trace (readcolordata (L := quest_layout) zero_palnames
           (bytes (240 * 48) x01) (filled_tables x00 tt) 0x190 0 true)
    = replicate (oldpdTOTAL (Layout := quest_layout)) (Call_fread 48) ++
      [Call_init_palnames] /\
  colordata (dest (readcolordata (L := quest_layout) zero_palnames
                     (bytes (240 * 48) x01) (filled_tables x00 tt) 0x190 0 true))
    = relocate_oldest (L := quest_layout)
        (blit 0 (take (oldpdTOTAL (Layout := quest_layout) * 48) (bytes (240 * 48) x01))
           (colordata (filled_tables x00 tt))).
Proof.
  assert (0x190 < 0x192 \/ (0x190 = 0x192 /\ 0 < 73)) as H1 by (left; lia).
  assert (oldpdTOTAL (Layout := quest_layout) * 48
            <= length (bytes (240 * 48) x01))%nat as H2
    by (apply Nat.leb_le; vm_compute; reflexivity).
  assert (oldpoSPRITE (Layout := quest_layout) + 30
            <= newerpoSPRITE (Layout := quest_layout))%nat as H3
    by (apply Nat.leb_le; vm_compute; reflexivity).
  assert ((newerpoSPRITE (Layout := quest_layout) + 30) * 48
            <= length (colordata (filled_tables x00 tt)))%nat as H4
    by (apply Nat.leb_le; vm_compute; reflexivity).
  destruct (legacy_relocation (L := quest_layout) zero_palnames
              (bytes (240 * 48) x01) (filled_tables x00 tt) 0x190 0 H1 H2 H3 H4)
    as (He & _ & Ht & Hc & _).
  exact (conj H1 (conj H2 (conj H3 (conj H4 (conj He (conj Ht Hc)))))).
Defined.



(** C9, on a stream that declares 257 cycle rows and holds their bytes: no
    check stops the loop at the end of the table.  It reads the nine bytes
    of row 256 as well and stores them into [cycles[256][0..2]], the three
    cells behind the 256-row table; the call returns [0] and commits
    them. *)
Lemma count_257_overruns :
  match readcolordata (L := quest_layout) zero_palnames
          (bytes 8 x00 ++ bytes (3373 * 48 + 256 * 17) x00 ++ [x01; x01] ++
           bytes (256 * 9) x05 ++ bytes 9 x09)
          (filled_tables x00 tt) 0x193 0 true with
  | {| ended := e; dest := d; trace := calls |} =>
      e = Returned qe_OK /\
      calls = [Call_igetw; Call_igetw; Call_igetl] ++
              replicate 3373 (Call_fread 48) ++ replicate 256 (Call_fread 17) ++
              Call_igetw :: replicate (257 * 9) Call_getc /\
      cycles (Misc d) =
        replicate 256 (replicate 3 {| first := x05; count := x05; speed := x05 |}) /\
      take 3 (behind (Misc d)) =
        replicate 3 {| first := x09; count := x09; speed := x09 |}
  end.
Proof. vm_compute. done. Qed.

(** C10 fails on the same stream, by the defect of C9: the call returns [0]
    with [keepdata] true and the fields of [Misc] laid out behind the cycle
    table no longer hold what they held before the call. *)
Lemma count_257_changes_fields :
  0x192 < 0x193 /\
  behind (Misc (filled_tables x00 tt)) =
    replicate 6 {| first := x00; count := x00; speed := x00 |} /\
  match readcolordata (L := quest_layout) zero_palnames
          (bytes 8 x00 ++ bytes (3373 * 48 + 256 * 17) x00 ++ [x01; x01] ++
           bytes (256 * 9) x05 ++ bytes 9 x09)
          (filled_tables x00 tt) 0x193 0 true with
  | {| ended := e; dest := d |} =>
      e = Returned qe_OK /\
      behind (Misc d) =
        replicate 3 {| first := x09; count := x09; speed := x09 |} ++
        replicate 3 {| first := x00; count := x00; speed := x00 |}
  end.
Proof. vm_compute. done. Qed.

(** ** The further properties on concrete streams *)


Lemma unread_after_section_witness :
  ended (readcolordata (L := quest_layout) zero_palnames
           (bytes (240 * 48) x01 ++ [x07; x08]) (filled_tables x00 tt) 0x190 0 false)
    = Returned qe_OK /\
  unread (readcolordata (L := quest_layout) zero_palnames
            (bytes (240 * 48) x01 ++ [x07; x08]) (filled_tables x00 tt) 0x190 0 false)
    = drop (section_size (L := quest_layout) 0x190 0 (bytes (240 * 48) x01 ++ [x07; x08]))
        (bytes (240 * 48) x01 ++ [x07; x08]).
Proof.
  assert (ended (readcolordata (L := quest_layout) zero_palnames
            (bytes (240 * 48) x01 ++ [x07; x08]) (filled_tables x00 tt) 0x190 0 false)
          = Returned qe_OK) as Hok by (vm_compute; reflexivity).
  split; [exact Hok|].
  exact (unread_after_section (L := quest_layout) zero_palnames _ _ _ _ _ Hok).
Defined.

Lemma fields_kept_up_to_256_rows_witness :
  (declared_rows (L := quest_layout) 0x193 0
     (bytes 8 x00 ++ bytes (3373 * 48 + 256 * 17) x01 ++ [x02; x00] ++ bytes 18 x05)
   <= 256)%nat /\
  others (Misc (dest (readcolordata (L := quest_layout) zero_palnames
                        (bytes 8 x00 ++ bytes (3373 * 48 + 256 * 17) x01 ++ [x02; x00] ++
                         bytes 18 x05)
                        (filled_tables x09 7%nat) 0x193 0 true))) = 7%nat /\
  behind (Misc (dest (readcolordata (L := quest_layout) zero_palnames
                        (bytes 8 x00 ++ bytes (3373 * 48 + 256 * 17) x01 ++ [x02; x00] ++
                         bytes 18 x05)
                        (filled_tables x09 7%nat) 0x193 0 true)))
    = behind (Misc (filled_tables x09 7%nat)).
Proof.
  assert (declared_rows (L := quest_layout) 0x193 0
            (bytes 8 x00 ++ bytes (3373 * 48 + 256 * 17) x01 ++ [x02; x00] ++ bytes 18 x05)
          <= 256)%nat as Hrows
    by (apply Nat.leb_le; vm_compute; reflexivity).
  destruct (fields_kept_up_to_256_rows (L := quest_layout) zero_palnames
              (bytes 8 x00 ++ bytes (3373 * 48 + 256 * 17) x01 ++ [x02; x00] ++ bytes 18 x05)
              (filled_tables x09 7%nat) 0x193 0 true) as [Ho Hb].
  exact (conj Hrows (conj Ho (Hb Hrows))).
Defined.

Lemma header_length_unused_witness :
  0x192 < 0x193 /\
  readcolordata (L := quest_layout) zero_palnames
    (x04 :: x00 :: [x01; x02; x03; x04; x05; x06] ++
     bytes (6701 * 48 + 512 * 17) x01 ++ [x00; x00])
    (filled_tables x00 tt) 0x193 0 false =
  readcolordata (L := quest_layout) zero_palnames
    (x04 :: x00 :: [xff; xfe; xfd; xfc; xfb; xfa] ++
     bytes (6701 * 48 + 512 * 17) x01 ++ [x00; x00])
    (filled_tables x00 tt) 0x193 0 false.
Proof.
  assert (0x192 < 0x193) as Hv by lia.
  split; [exact Hv|].
  exact (header_length_unused (L := quest_layout) zero_palnames x04 x00
           [x01; x02; x03; x04; x05; x06] [xff; xfe; xfd; xfc; xfb; xfa]
           _ _ _ 0 false Hv eq_refl eq_refl).
Defined.

Lemma extended_relocation_witness :
  (0x192 < 0x192 \/ (0x192 = 0x192 /\ 73 <= 76)) /\
  sub_version 0x192 (bytes (3373 * 48 + 256 * 17) x01) < 4 /\
  (newpoSPRITE (Layout := quest_layout) + 30 <= newerpoSPRITE (Layout := quest_layout))%nat /\
  ((newerpoSPRITE (Layout := quest_layout) + 30) * 48
     <= length (colordata (filled_tables x00 tt)))%nat /\
  ended (readcolordata (L := quest_layout) zero_palnames
           (bytes (3373 * 48 + 256 * 17) x01) (filled_tables x00 tt) 0x192 76 true)
    = Returned qe_OK /\
  colordata (dest (readcolordata (L := quest_layout) zero_palnames
                     (bytes (3373 * 48 + 256 * 17) x01) (filled_tables x00 tt) 0x192 76 true))
    = relocate_old (L := quest_layout)
        (read_extended (L := quest_layout)
           (color_bytes (L := quest_layout) 0x192 76 (bytes (3373 * 48 + 256 * 17) x01))
           (colordata (filled_tables x00 tt))).
Proof.
  assert (0x192 < 0x192 \/ (0x192 = 0x192 /\ 73 <= 76)) as H1 by (right; lia).
  assert (sub_version 0x192 (bytes (3373 * 48 + 256 * 17) x01) < 4) as H2
    by (vm_compute; reflexivity).
  assert (newpoSPRITE (Layout := quest_layout) + 30
            <= newerpoSPRITE (Layout := quest_layout))%nat as H3
    by (apply Nat.leb_le; vm_compute; reflexivity).
  assert ((newerpoSPRITE (Layout := quest_layout) + 30) * 48
            <= length (colordata (filled_tables x00 tt)))%nat as H4
    by (apply Nat.leb_le; vm_compute; reflexivity).
  assert (ended (readcolordata (L := quest_layout) zero_palnames
            (bytes (3373 * 48 + 256 * 17) x01) (filled_tables x00 tt) 0x192 76 true)
          = Returned qe_OK) as Hok by (vm_compute; reflexivity).
  destruct (extended_relocation (L := quest_layout) zero_palnames _ _ _ _ H1 H2 H3 H4 Hok)
    as (_ & Hc & _).
  exact (conj H1 (conj H2 (conj H3 (conj H4 (conj Hok Hc))))).
Defined.

Lemma newest_colors_verbatim_witness :
  4 <= sub_version 0x193
         ([x04; x00; x00; x00; x00; x00; x00; x00] ++
          bytes (6701 * 48 + 512 * 17) x01 ++ [x00; x00]) /\
  (oldpdTOTAL (Layout := quest_layout) <= newpdTOTAL (Layout := quest_layout))%nat /\
  (newpdTOTAL (Layout := quest_layout) <= newerpdTOTAL (Layout := quest_layout))%nat /\
  ended (readcolordata (L := quest_layout) zero_palnames
           ([x04; x00; x00; x00; x00; x00; x00; x00] ++
            bytes (6701 * 48 + 512 * 17) x01 ++ [x00; x00])
           (filled_tables x00 tt) 0x193 0 true) = Returned qe_OK /\
  colordata (dest (readcolordata (L := quest_layout) zero_palnames
                     ([x04; x00; x00; x00; x00; x00; x00; x00] ++
                      bytes (6701 * 48 + 512 * 17) x01 ++ [x00; x00])
                     (filled_tables x00 tt) 0x193 0 true))
    = blit 0 (color_bytes (L := quest_layout) 0x193 0
                ([x04; x00; x00; x00; x00; x00; x00; x00] ++
                 bytes (6701 * 48 + 512 * 17) x01 ++ [x00; x00]))
        (colordata (filled_tables x00 tt)).
Proof.
  assert (4 <= sub_version 0x193
                 ([x04; x00; x00; x00; x00; x00; x00; x00] ++
                  bytes (6701 * 48 + 512 * 17) x01 ++ [x00; x00])) as H1
    by (vm_compute; discriminate).
  assert (oldpdTOTAL (Layout := quest_layout)
            <= newpdTOTAL (Layout := quest_layout))%nat as H2
    by (apply Nat.leb_le; vm_compute; reflexivity).
  assert (newpdTOTAL (Layout := quest_layout)
            <= newerpdTOTAL (Layout := quest_layout))%nat as H3
    by (apply Nat.leb_le; vm_compute; reflexivity).
  assert (ended (readcolordata (L := quest_layout) zero_palnames
            ([x04; x00; x00; x00; x00; x00; x00; x00] ++
             bytes (6701 * 48 + 512 * 17) x01 ++ [x00; x00])
            (filled_tables x00 tt) 0x193 0 true) = Returned qe_OK) as Hok
    by (vm_compute; reflexivity).
  destruct (newest_colors_verbatim (L := quest_layout) zero_palnames _ _ _ _ H1 H2 H3 Hok)
    as (_ & Hc & _).
  exact (conj H1 (conj H2 (conj H3 (conj Hok Hc)))).
Defined.

Lemma trailing_bytes_unread_witness :
  ended (readcolordata (L := quest_layout) zero_palnames
           (bytes (240 * 48) x01) (filled_tables x00 tt) 0x190 0 false) = Returned qe_OK /\
  unread (readcolordata (L := quest_layout) zero_palnames
            (bytes (240 * 48) x01 ++ [x07; x08]) (filled_tables x00 tt) 0x190 0 false)
    = unread (readcolordata (L := quest_layout) zero_palnames
                (bytes (240 * 48) x01) (filled_tables x00 tt) 0x190 0 false) ++ [x07; x08].
Proof.
  assert (ended (readcolordata (L := quest_layout) zero_palnames
            (bytes (240 * 48) x01) (filled_tables x00 tt) 0x190 0 false)
          = Returned qe_OK) as Hok by (vm_compute; reflexivity).
  split; [exact Hok|].
  exact (f_equal unread
           (trailing_bytes_unread (L := quest_layout) zero_palnames _ [x07; x08] _ _ _ _ Hok)).
Defined.

Lemma truncated_section_invalid_witness :
  ended (readcolordata (L := quest_layout) zero_palnames
           (bytes (240 * 48) x01) (filled_tables x00 tt) 0x190 0 false) = Returned qe_OK /\
  (100 < section_size (L := quest_layout) 0x190 0 (bytes (240 * 48) x01))%nat /\
  ended (readcolordata (L := quest_layout) zero_palnames
           (take 100 (bytes (240 * 48) x01)) (filled_tables x00 tt) 0x190 0 false)
    = Returned qe_invalid.
Proof.
  assert (ended (readcolordata (L := quest_layout) zero_palnames
            (bytes (240 * 48) x01) (filled_tables x00 tt) 0x190 0 false)
          = Returned qe_OK) as Hok by (vm_compute; reflexivity).
  assert (100 < section_size (L := quest_layout) 0x190 0 (bytes (240 * 48) x01))%nat
    as Hm by (apply Nat.ltb_lt; vm_compute; reflexivity).
  split; [exact Hok|]. split; [exact Hm|].
  exact (truncated_section_invalid (L := quest_layout) zero_palnames _ _ _ _ _ _ Hok Hm).
Defined.


Lemma calls_of_a_successful_read_witness :
  ended (readcolordata (L := quest_layout) zero_palnames
           (bytes 8 x00 ++ bytes (3373 * 48 + 256 * 17) x01 ++ [x02; x00] ++ bytes 18 x05)
           (filled_tables x09 tt) 0x193 0 false) = Returned qe_OK /\
  trace (readcolordata (L := quest_layout) zero_palnames
           (bytes 8 x00 ++ bytes (3373 * 48 + 256 * 17) x01 ++ [x02; x00] ++ bytes 18 x05)
           (filled_tables x09 tt) 0x193 0 false) =
    table_calls (L := quest_layout) 0x193 0 false
      (bytes 8 x00 ++ bytes (3373 * 48 + 256 * 17) x01 ++ [x02; x00] ++ bytes 18 x05) ++
    (if 0x192 <? 0x193
     then Call_igetw ::
          replicate (9 * declared_rows (L := quest_layout) 0x193 0
                           (bytes 8 x00 ++ bytes (3373 * 48 + 256 * 17) x01 ++
                            [x02; x00] ++ bytes 18 x05)) Call_getc
     else []).
Proof.
  assert (ended (readcolordata (L := quest_layout) zero_palnames
            (bytes 8 x00 ++ bytes (3373 * 48 + 256 * 17) x01 ++ [x02; x00] ++ bytes 18 x05)
            (filled_tables x09 tt) 0x193 0 false) = Returned qe_OK) as Hok
    by (vm_compute; reflexivity).
  split; [exact Hok|].
  exact (calls_of_a_successful_read (L := quest_layout) zero_palnames _ _ _ _ _ Hok).
Defined.

Lemma old_format_keeps_Misc_witness :
  0x190 <= 0x192 /\
  Misc (dest (readcolordata (L := quest_layout) zero_palnames
                (bytes (240 * 48) x01) (filled_tables x09 tt) 0x190 0 true))
    = Misc (filled_tables x09 tt).
Proof.
  assert (0x190 <= 0x192) as Hv by lia.
  split; [exact Hv|].
  exact (old_format_keeps_Misc (L := quest_layout) zero_palnames _ _ _ 0 true Hv).
Defined.
